(** * nav/search_index.js: the incremental search matcher and renderer

    A shallow embedding of [search_index], [clear_search_index],
    [render_results], [render_link] and [render_item] together with the
    parts of the JavaScript run time they call: [RegExp] construction
    and [test], [Array.prototype.sort], number comparison and the DOM
    nodes the handlers write.

    Conventions.
    - A string is a sequence of UTF-16 code units; [ascii] is a code
      unit in the range 0..255 (Basic Latin and Latin-1 Supplement), so
      [String.length] is the [length] property.
    - A completion is the way a JavaScript computation ends: normally,
      by a thrown error, or outside the fragment of the pattern
      language embedded here ([Unsupported]: character classes, braced
      quantifiers, class and control escapes, back references,
      lookaround and named groups).
    - A Number is a binary64 value: a finite one is held as the
      rational it is, and [query.length / title.length] and the
      product with 10 are the exact quotient and product rounded to
      the nearest number with a significand of 53 bits, ties to even
      ([Number.round]). A string has fewer than 2^53 code units, so a
      length is a Number as it is and neither operation leaves the
      normal range of binary64.
    - [event.preventDefault()] and the focus of the query field are not
      part of the page state. *)

From Stdlib Require Import List String Ascii Bool Arith ZArith QArith Lia.
From Stdlib Require Import Permutation Sorted.
Import ListNotations.

Local Open Scope string_scope.
Local Open Scope list_scope.

(* ================================================================== *)
(** ** Completions *)

Inductive error : Type :=
| SyntaxError
| TypeError
| ReferenceError.

Inductive completion (A : Type) : Type :=
| Normal (a : A)
| Throw (e : error)
| Unsupported.

Arguments Normal {A} a.
Arguments Throw {A} e.
Arguments Unsupported {A}.

(** A global variable as a script that reads it finds it: never
    declared by any script, or declared and holding a value, [None]
    for [undefined] and [null]. *)
Inductive binding (A : Type) : Type :=
| Undeclared
| Declared (value : option A).

Arguments Undeclared {A}.
Arguments Declared {A} value.

(** An [option] where a binding is expected is the value of a declared
    global. *)
Coercion Declared : option >-> binding.

(* ================================================================== *)
(** ** Code units and case mapping *)

Module CodeUnit.

Definition code (c : ascii) : nat := nat_of_ascii c.

Definition between (lo hi n : nat) : bool := (lo <=? n)%nat && (n <=? hi)%nat.

(** [Canonicalize] of a non-unicode, ignore-case pattern: the upper
    case of the code unit when that is again a single code unit.
    Inside 0..255 this folds a-z and the letters 0xE0..0xFE (without
    the division sign 0xF7); the micro sign and y-diaeresis map
    outside the range, each to a code unit no other one maps to, and
    sharp s has a two-unit upper case, so all three stay. *)
Definition canonicalize (c : ascii) : ascii :=
  let n := code c in
  if between 97 122 n || (between 224 254 n && negb (n =? 247)%nat)
  then ascii_of_nat (n - 32) else c.

(** [String.prototype.toLowerCase] on one code unit of 0..255. *)
Definition toLowerCase (c : ascii) : ascii :=
  let n := code c in
  if between 65 90 n || (between 192 222 n && negb (n =? 215)%nat)
  then ascii_of_nat (n + 32) else c.

(** Line terminators, which [.] does not match. *)
Definition is_line_terminator (c : ascii) : bool :=
  (code c =? 10)%nat || (code c =? 13)%nat.

Definition same_ci (a b : ascii) : bool :=
  Ascii.eqb (canonicalize a) (canonicalize b).

End CodeUnit.

(* ================================================================== *)
(** ** Regular expressions: [new RegExp(source, 'i')] and [test] *)

Module RegExp.

(** The pattern fragment: alternation, sequence, the quantifiers
    [*], [+], [?] (greedy or lazy), groups, [.], [^], [$] and
    literal or escaped characters. *)
Inductive regex : Type :=
| Empty
| Char (c : ascii)
| Dot
| Bol
| Eol
| Seq (r1 r2 : regex)
| Alt (r1 r2 : regex)
| Star (r : regex)
| Plus (r : regex)
| Opt (r : regex)
| Group (r : regex).

(** *** Parsing the pattern source *)

Inductive token : Type :=
| TAlt | TOpen | TClose | TStar | TPlus | TQuery
| TCaret | TDollar | TDot | TBackslash | TBracket | TChar.

Definition classify (c : ascii) : token :=
  match c with
  | "|"%char => TAlt
  | "("%char => TOpen
  | ")"%char => TClose
  | "*"%char => TStar
  | "+"%char => TPlus
  | "?"%char => TQuery
  | "^"%char => TCaret
  | "$"%char => TDollar
  | "."%char => TDot
  | "\"%char => TBackslash
  | "["%char | "]"%char | "{"%char | "}"%char => TBracket
  | _ => TChar
  end.

(** What a quantifier may attach to at this point of an alternative. *)
Inductive status : Type :=
| NoAtom        (* start, after an assertion or after a lazy mark *)
| Atom          (* an atom that may take a quantifier *)
| Quantified.   (* a quantified atom that may take the lazy mark *)

Record frame : Type := mkFrame {
  alts : list regex;   (* finished alternatives, last first *)
  cur : list regex;    (* terms of the open alternative, last first *)
  st : status
}.

Definition frame0 : frame := mkFrame [] [] NoAtom.

Definition mkseq (terms : list regex) : regex :=
  fold_left (fun acc t => Seq t acc) terms Empty.

Definition mkalt (f : frame) : regex :=
  fold_left (fun acc a => Alt a acc) (alts f) (mkseq (cur f)).

Definition push_term (r : regex) (s : status) (f : frame) : frame :=
  mkFrame (alts f) (r :: cur f) s.

Definition quantify (q : regex -> regex) (f : frame) : completion frame :=
  match st f, cur f with
  | Atom, r :: rest => Normal (mkFrame (alts f) (q r :: rest) Quantified)
  | _, _ => Throw SyntaxError   (* nothing to repeat *)
  end.

Fixpoint parse (src : list ascii) (f : frame) (stack : list frame)
  : completion regex :=
  match src with
  | [] =>
      match stack with
      | [] => Normal (mkalt f)
      | _ :: _ => Throw SyntaxError   (* unterminated group *)
      end
  | c :: rest =>
      match classify c with
      | TAlt => parse rest (mkFrame (mkseq (cur f) :: alts f) [] NoAtom) stack
      | TOpen =>
          match rest with
          | "?"%char :: ":"%char :: rest' => parse rest' frame0 (f :: stack)
          | "?"%char :: _ => Unsupported   (* lookaround, named group *)
          | _ => parse rest frame0 (f :: stack)
          end
      | TClose =>
          match stack with
          | [] => Throw SyntaxError   (* unmatched ')' *)
          | up :: stack' => parse rest (push_term (Group (mkalt f)) Atom up) stack'
          end
      | TStar =>
          match quantify Star f with
          | Normal f' => parse rest f' stack
          | Throw e => Throw e
          | Unsupported => Unsupported
          end
      | TPlus =>
          match quantify Plus f with
          | Normal f' => parse rest f' stack
          | Throw e => Throw e
          | Unsupported => Unsupported
          end
      | TQuery =>
          match st f with
          | Quantified => parse rest (mkFrame (alts f) (cur f) NoAtom) stack
          | _ =>
              match quantify Opt f with
              | Normal f' => parse rest f' stack
              | Throw e => Throw e
              | Unsupported => Unsupported
              end
          end
      | TCaret => parse rest (push_term Bol NoAtom f) stack
      | TDollar => parse rest (push_term Eol NoAtom f) stack
      | TDot => parse rest (push_term Dot Atom f) stack
      | TBackslash =>
          match rest with
          | [] => Throw SyntaxError   (* \ at end of pattern *)
          | e :: rest' =>
              match classify e with
              | TChar => Unsupported   (* class, control and back references *)
              | _ => parse rest' (push_term (Char e) Atom f) stack
              end
          end
      | TBracket => Unsupported   (* classes and braced quantifiers *)
      | TChar => parse rest (push_term (Char c) Atom f) stack
      end
  end.

(** [new RegExp(source, 'i')]. *)
Definition new_RegExp (source : string) : completion regex :=
  parse (list_ascii_of_string source) frame0 [].

(** *** Matching *)

(** A position of the subject: whether it is its start, and what is
    left of it. *)
Definition pos : Type := (bool * list ascii)%type.

Definition remaining (p : pos) : nat := List.length (snd p).

(** Zero or more rounds of [step] from [p]. A round that consumes
    nothing is not taken again, as in the RepeatMatcher; a round that
    consumes something shortens what remains, so [S (remaining p)]
    rounds reach every end. *)
Fixpoint iterate (step : pos -> list pos) (fuel : nat) (p : pos) : list pos :=
  match fuel with
  | O => [p]
  | S fuel' =>
      p :: flat_map
             (fun p' => if (remaining p' <? remaining p)%nat
                        then iterate step fuel' p' else [])
             (step p)
  end.

Definition repeat_from (step : pos -> list pos) (p : pos) : list pos :=
  iterate step (S (remaining p)) p.

(** The positions at which a match of [r] that starts at [p] can end. *)
Fixpoint ends (r : regex) (p : pos) {struct r} : list pos :=
  match r with
  | Empty => [p]
  | Char c =>
      match snd p with
      | x :: rest => if CodeUnit.same_ci c x then [(false, rest)] else []
      | [] => []
      end
  | Dot =>
      match snd p with
      | x :: rest => if CodeUnit.is_line_terminator x then [] else [(false, rest)]
      | [] => []
      end
  | Bol => if fst p then [p] else []
  | Eol => match snd p with [] => [p] | _ :: _ => [] end
  | Seq r1 r2 => flat_map (ends r2) (ends r1 p)
  | Alt r1 r2 => ends r1 p ++ ends r2 p
  | Star r' => repeat_from (ends r') p
  | Plus r' => flat_map (repeat_from (ends r')) (ends r' p)
  | Opt r' => ends r' p ++ [p]
  | Group r' => ends r' p
  end.

(** Every position of the subject at which a match may start. *)
Fixpoint starts (at_start : bool) (s : list ascii) : list pos :=
  (at_start, s) ::
  match s with
  | [] => []
  | _ :: s' => starts false s'
  end.

Definition matches_at (r : regex) (p : pos) : bool :=
  match ends r p with
  | [] => false
  | _ :: _ => true
  end.

(** [r.test(subject)] for a pattern without the global flag. *)
Definition test (r : regex) (subject : string) : bool :=
  existsb (matches_at r) (starts true (list_ascii_of_string subject)).

End RegExp.

(* ================================================================== *)
(** ** Numbers *)

Module Number.

(** The values [query.length / title.length] and its tenfold can
    take. *)
Inductive number : Type :=
| Fin (q : Q)
| Infinity
| NaN.

Definition zero : number := Fin 0%Q.

(** The integer nearest to [n / d], the even one of two that are
    equally near ([d] positive). *)
Definition nearest_even (n d : Z) : Z :=
  let m := (n / d)%Z in
  match (2 * (n mod d) ?= d)%Z with
  | Lt => m
  | Gt => (m + 1)%Z
  | Eq => if Z.even m then m else (m + 1)%Z
  end.

(** [(a / b) / 2^e] as a fraction of two integers. *)
Definition scale (e : Z) (a b : positive) : Z * Z :=
  if (0 <=? e)%Z then (Zpos a, (Zpos b * 2 ^ e)%Z)
  else ((Zpos a * 2 ^ (- e))%Z, Zpos b).

(** The binary exponent of [a / b]: the [e] with
    [2^e <= a / b < 2^(e + 1)]. *)
Definition exponent (a b : positive) : Z :=
  let l := (Z.log2 (Zpos a) - Z.log2 (Zpos b))%Z in
  if (fst (scale l a b) <? snd (scale l a b))%Z then (l - 1)%Z else l.

(** [a / b] rounded to 53 significant bits: the significand is the
    integer nearest to [(a / b) / 2^(e - 52)], between 2^52 and 2^53. *)
Definition round_pos (a b : positive) : Q :=
  let e := (exponent a b - 52)%Z in
  let m := nearest_even (fst (scale e a b)) (snd (scale e a b)) in
  if (0 <=? e)%Z then inject_Z (m * 2 ^ e)
  else Qred (m # Z.to_pos (2 ^ (- e))).

(** The binary64 value of an exact result [x] in the normal range:
    round to nearest, ties to even. *)
Definition round (x : Q) : Q :=
  match Qnum x with
  | Z0 => 0%Q
  | Zpos a => round_pos a (Qden x)
  | Zneg a => Qopp (round_pos a (Qden x))
  end.

(** [n / m] for two lengths. *)
Definition div (n m : nat) : number :=
  match m, n with
  | O, O => NaN
  | O, S _ => Infinity
  | S _, _ => Fin (round (Z.of_nat n # Pos.of_nat m))
  end.

(** [x * 10]. *)
Definition times10 (x : number) : number :=
  match x with
  | Fin q => Fin (round (q * 10)%Q)
  | Infinity => Infinity
  | NaN => NaN
  end.

(** [x < y]; a comparison with [NaN] is false. *)
Definition lt (x y : number) : bool :=
  match x, y with
  | Fin a, Fin b => match (a ?= b)%Q with Lt => true | _ => false end
  | Fin _, Infinity => true
  | _, _ => false
  end.

(** [x > y]. *)
Definition gt (x y : number) : bool := lt y x.

(** [x === y] on numbers. *)
Definition eq (x y : number) : bool :=
  match x, y with
  | Fin a, Fin b => Qeq_bool a b
  | Infinity, Infinity => true
  | _, _ => false
  end.

(** [x >= y]. *)
Definition ge (x y : number) : bool :=
  match x, y with
  | Fin a, Fin b => Qle_bool b a
  | Infinity, Fin _ => true
  | Infinity, Infinity => true
  | _, _ => false
  end.

End Number.

(* ================================================================== *)
(** ** The candidate list *)

(** [title.toLowerCase] without a call: the method itself, the same
    function object for every title. *)
Inductive method : Type :=
| String_prototype_toLowerCase.

(** ToPrimitive of a function object is its source text. *)
Definition to_primitive (m : method) : string :=
  match m with
  | String_prototype_toLowerCase => "function toLowerCase() { [native code] }"
  end.

(** [a > b] on two function objects compares their primitives as
    strings. *)
Definition method_gt (a b : method) : bool :=
  String.ltb (to_primitive b) (to_primitive a).

Definition method_lt (a b : method) : bool :=
  String.ltb (to_primitive a) (to_primitive b).

(** One object of [list]. [selected] is false while the property is
    absent; [render_results] sets it. *)
Record entry : Type := mkEntry {
  title : string;
  url : string;
  score : Number.number;
  title_lc : method;
  selected : bool
}.

(** [site_index]: the own properties of the object in the order
    [Object.keys] lists them (titles that are array indexes first, in
    ascending order, then the others in insertion order), each with its
    value. *)
Definition index : Type := list (string * string).

Section Scoring.

Variables lead partial : RegExp.regex.
Variable query : string.

(** The score of one title (the body of the [forEach]). *)
Definition score_of (t : string) : Number.number :=
  if RegExp.test lead t
  then Number.times10 (Number.div (String.length query) (String.length t))
  else if RegExp.test partial t
  then Number.div (String.length query) (String.length t)
  else Number.zero.

(** [Object.keys(site_index).forEach(title => ...)]. *)
Fixpoint build_list (props : index) : list entry :=
  match props with
  | [] => []
  | (t, u) :: rest =>
      let score := score_of t in
      if Number.gt score Number.zero
      then mkEntry t u score String_prototype_toLowerCase false :: build_list rest
      else build_list rest
  end.

End Scoring.

(** The comparison function handed to [list.sort]. *)
Definition compare_entries (a b : entry) : Z :=
  if Number.gt (score a) (score b) then -1
  else if Number.lt (score a) (score b) then 1
  else if method_gt (title_lc a) (title_lc b) then 1
  else if method_lt (title_lc a) (title_lc b) then -1
  else 0.

(** [Array.prototype.sort]: a stable sort (ECMAScript 2019); [x] stays
    before [y] unless the comparison function returns a positive
    number. For a comparison function that is consistent, as
    [compare_entries] is on positive scores, the sorted array does not
    depend on the algorithm; insertion computes it. *)
Section Sort.

Context {A : Type}.
Variable cmp : A -> A -> Z.

Fixpoint insert (x : A) (l : list A) : list A :=
  match l with
  | [] => [x]
  | y :: l' => if (cmp x y <=? 0)%Z then x :: l else y :: insert x l'
  end.

Fixpoint sort (l : list A) : list A :=
  match l with
  | [] => []
  | x :: l' => insert x (sort l')
  end.

End Sort.

(** [list.slice(0, n)]. *)
Definition slice0 {A : Type} (n : nat) (l : list A) : list A := firstn n l.

(** The list after lines 234-244: sorted, then cut to ten entries. *)
Definition rank (l : list entry) : list entry :=
  let l := sort compare_entries l in
  if (10 <? List.length l)%nat then slice0 10 l else l.

(** The candidates of one search pass (lines 214-233) as a function of
    the query and the index. *)
Definition candidates (query : string) (site_index : binding index)
  : completion (list entry) :=
  match RegExp.new_RegExp ("^" ++ query)%string with
  | Normal lead =>
      match RegExp.new_RegExp query with
      | Normal partial =>
          match site_index with
          | Declared (Some props) => Normal (build_list lead partial query props)
          | Declared None => Throw TypeError
          | Undeclared => Throw ReferenceError
          end
      | Throw e => Throw e
      | Unsupported => Unsupported
      end
  | Throw e => Throw e
  | Unsupported => Unsupported
  end.

(** The ranked list of one search pass (lines 214-244): the candidates,
    sorted and cut when there are any. *)
Definition ranked_list (query : string) (site_index : binding index)
  : completion (list entry) :=
  match candidates query site_index with
  | Normal l => Normal (if (0 <? List.length l)%nat then rank l else l)
  | Throw e => Throw e
  | Unsupported => Unsupported
  end.

(** An entry the pass pushes has a positive score. *)
Definition positive (e : entry) : Prop :=
  Number.gt (score e) Number.zero = true.

(** The entries with the score [s]. *)
Definition has_score (s : Number.number) (e : entry) : bool :=
  Number.eq (score e) s.

(* ================================================================== *)
(** ** The page: what the handlers read and write *)

(** [Builder.node('a', {href}, title)]. *)
Record a_node : Type := mkA {
  href : string;
  a_text : string
}.

(** [Builder.node('li', attr, link)]; [li_class] is [attr['class']]. *)
Record li_node : Type := mkLi {
  li_class : option string;
  li_link : a_node
}.

(** The element [index_results]: [None] after [update('')], the items
    of the [ul] after [update(ul)]; [shown] after [show()], not after
    [hide()]. *)
Record container : Type := mkContainer {
  children : option (list li_node);
  shown : bool
}.

Record page : Type := mkPage {
  site_index : binding index;    (* the global [site_index] *)
  index_query : string;          (* the value of the input element *)
  index_results : container;
  sel_idx : Z;                   (* -1: no entry selected *)
  location : list string         (* [window.location.assign] calls, last first *)
}.

(** A handler: a computation over the page that may throw; the page
    keeps what was written before the throw. *)
Definition M (A : Type) : Type := page -> completion A * page.

Definition ret {A : Type} (a : A) : M A := fun p => (Normal a, p).

Definition bind {A B : Type} (m : M A) (k : A -> M B) : M B :=
  fun p =>
    match m p with
    | (Normal a, p') => k a p'
    | (Throw e, p') => (Throw e, p')
    | (Unsupported, p') => (Unsupported, p')
    end.

Definition lift {A : Type} (c : completion A) : M A := fun p => (c, p).

Declare Scope js_scope.
Delimit Scope js_scope with js.
Notation "x <- m ;; k" := (bind m (fun x => k))
  (at level 61, m at next level, right associativity) : js_scope.
Notation "m ;; k" := (bind m (fun _ => k))
  (at level 61, right associativity) : js_scope.
Local Open Scope js_scope.

Definition getValue : M string := fun p => (Normal (index_query p), p).

Definition setValue (v : string) : M unit :=
  fun p => (Normal tt,
            mkPage (site_index p) v (index_results p) (sel_idx p) (location p)).

Definition update (c : option (list li_node)) : M unit :=
  fun p => (Normal tt,
            mkPage (site_index p) (index_query p)
                   (mkContainer c (shown (index_results p)))
                   (sel_idx p) (location p)).

Definition set_shown (b : bool) : M unit :=
  fun p => (Normal tt,
            mkPage (site_index p) (index_query p)
                   (mkContainer (children (index_results p)) b)
                   (sel_idx p) (location p)).

Definition hide : M unit := set_shown false.
Definition show : M unit := set_shown true.

Definition get_sel_idx : M Z := fun p => (Normal (sel_idx p), p).

Definition set_sel_idx (i : Z) : M unit :=
  fun p => (Normal tt,
            mkPage (site_index p) (index_query p) (index_results p) i (location p)).

Definition location_assign (u : string) : M unit :=
  fun p => (Normal tt,
            mkPage (site_index p) (index_query p) (index_results p) (sel_idx p)
                   (u :: location p)).

(** [Object.keys(site_index)] with the value of each key. A missing
    index throws: reading a global that no script declared is a
    ReferenceError, and [Object.keys] of [undefined] or [null] is a
    TypeError. *)
Definition Object_keys_site_index : M index :=
  fun p =>
    match site_index p with
    | Declared (Some props) => (Normal props, p)
    | Declared None => (Throw TypeError, p)
    | Undeclared => (Throw ReferenceError, p)
    end.

(** [l[i]]: [None] is [undefined]. *)
Definition item {A : Type} (l : list A) (i : Z) : option A :=
  if (i <? 0)%Z then None else nth_error l (Z.to_nat i).

(** A property read or write on [l[i]], which throws on [undefined]. *)
Definition item_of {A : Type} (l : list A) (i : Z) : M A :=
  match item l i with
  | Some a => ret a
  | None => lift (Throw TypeError)
  end.

(** [l] with [f] applied to the object at [i]. *)
Fixpoint update_nth {A : Type} (f : A -> A) (i : nat) (l : list A) : list A :=
  match l, i with
  | [], _ => []
  | x :: l', O => f x :: l'
  | x :: l', S i' => x :: update_nth f i' l'
  end.

Definition set_selected (e : entry) : entry :=
  mkEntry (title e) (url e) (score e) (title_lc e) true.

(* ================================================================== *)
(** ** The handlers *)

Definition clear_search_index : M unit :=
  setValue "" ;;
  update None ;; hide.

Definition render_link (m : entry) : a_node :=
  mkA (url m) (title m).

Definition render_item (m : entry) (link : a_node) : li_node :=
  let attr := if selected m then Some "selected" else None in
  mkLi attr link.

Definition render_results (list : list entry) : M unit :=
  sel <- get_sel_idx ;;
  list <- (if (sel >=? 0)%Z && (sel <? Z.of_nat (List.length list))%Z
           then _ <- item_of list sel ;;
                ret (update_nth set_selected (Z.to_nat sel) list)
           else ret list) ;;
  let ul := map (fun m => render_item m (render_link m)) list in
  update (Some ul) ;; show.

(** Lines 245-261: what the released key does with a ranked list that
    is not empty. *)
Definition dispatch (code : string) (list : list entry) : M unit :=
  if String.eqb code "ArrowDown" then
    sel <- get_sel_idx ;;
    set_sel_idx (Z.min (sel + 1) (Z.of_nat (List.length list) - 1)) ;;
    render_results list
  else if String.eqb code "ArrowUp" then
    sel <- get_sel_idx ;;
    set_sel_idx (Z.max (sel - 1) 0) ;;
    render_results list
  else if String.eqb code "Enter" then
    sel <- get_sel_idx ;;
    (if (sel =? -1)%Z
     then m <- item_of list 0 ;; location_assign (url m)
     else m <- item_of list sel ;; location_assign (url m)) ;;
    clear_search_index
  else
    set_sel_idx (-1) ;;
    render_results list.

Definition search_index (code : string) : M unit :=
  query <- getValue ;;
  lead <- lift (RegExp.new_RegExp ("^" ++ query)%string) ;;
  partial <- lift (RegExp.new_RegExp query) ;;
  props <- Object_keys_site_index ;;
  let list := build_list lead partial query props in
  if (0 <? List.length list)%nat then
    let list := sort compare_entries list in
    let list := if (10 <? List.length list)%nat then slice0 10 list else list in
    dispatch code list
  else
    update None ;; hide.

(** Lines 214-244 on their own: the pass that computes the ranked list,
    before the released key is looked at. *)
Definition search_pass : M (list entry) :=
  query <- getValue ;;
  lead <- lift (RegExp.new_RegExp ("^" ++ query)%string) ;;
  partial <- lift (RegExp.new_RegExp query) ;;
  props <- Object_keys_site_index ;;
  let list := build_list lead partial query props in
  if (0 <? List.length list)%nat then
    let list := sort compare_entries list in
    let list := if (10 <? List.length list)%nat then slice0 10 list else list in
    ret list
  else
    ret list.

(** What happens to the page. [Edit] is the browser changing the text
    of the query field (typing, pasting, cutting); the other three run
    the handlers the script registers: [keyup] on the field, [click] on
    the document and the [/] key binding (which also moves the focus to
    the field; the focus is not part of [page]). *)
Inductive event : Type :=
| Edit (value : string)
| KeyUp (code : string)
| Click
| Slash.

Definition handler (e : event) : M unit :=
  match e with
  | Edit v => setValue v
  | KeyUp code => search_index code
  | Click => clear_search_index
  | Slash => clear_search_index
  end.

(** An error thrown by a handler ends that handler and nothing else. *)
Definition step (p : page) (e : event) : page := snd (handler e p).

Definition run (p : page) (es : list event) : page := fold_left step es p.

(** The page once the script has loaded and [dom:loaded] has fired. *)
Definition loaded (site_index : binding index) : page :=
  mkPage site_index "" (mkContainer None false) (-1) [].

(* ================================================================== *)
(** ** Sample indexes *)

Definition monsters : index :=
  [("Goblin", "/goblin"); ("Gorgon", "/gorgon"); ("Dragon", "/dragon")].

(** Two titles of one length, the later one of the alphabet first. *)
Definition gorgon_first : index :=
  [("Gorgon", "/gorgon"); ("Goblin", "/goblin")].

(** Eleven titles that contain the letter a. *)
Definition eleven : index :=
  [("a", "/1"); ("ab", "/2"); ("abc", "/3"); ("abcd", "/4");
   ("ba", "/5"); ("bab", "/6"); ("babc", "/7"); ("cba", "/8");
   ("cbab", "/9"); ("dcba", "/10"); ("dcbab", "/11")].

(** The ranked list of the query "a" against [eleven]. *)
Definition ranked_eleven : list entry :=
  Eval vm_compute in
    match ranked_list "a" (Some eleven) with
    | Normal l => l
    | _ => []
    end.

(** The page after "Go" is typed and ArrowDown is released twice, and
    the ranked list of its query. *)
Definition browsing : page :=
  Eval vm_compute in
    run (loaded (Some monsters))
        [Edit "Go"; KeyUp "KeyO"; KeyUp "ArrowDown"; KeyUp "ArrowDown"].

Definition ranked_go : list entry :=
  Eval vm_compute in
    match ranked_list "Go" (Some monsters) with
    | Normal l => l
    | _ => []
    end.

(** The page after "Go" is typed and then "x", before the key is
    released: the results of "Go" still show. *)
Definition stale : page :=
  Eval vm_compute in
    run (loaded (Some monsters)) [Edit "Go"; KeyUp "KeyO"; Edit "Gox"].

(* ================================================================== *)
(** ** The words of the specification *)

Module Spec.

(** [s.toLowerCase()]. *)
Fixpoint toLowerCase (s : string) : string :=
  match s with
  | EmptyString => EmptyString
  | String c s' => String (CodeUnit.toLowerCase c) (toLowerCase s')
  end.

Fixpoint prefixb (a b : list ascii) : bool :=
  match a, b with
  | [], _ => true
  | x :: a', y :: b' => Ascii.eqb x y && prefixb a' b'
  | _ :: _, [] => false
  end.

Fixpoint includes (needle hay : list ascii) : bool :=
  prefixb needle hay ||
  match hay with
  | [] => false
  | _ :: hay' => includes needle hay'
  end.

(** "t starts with q case-insensitively". *)
Definition starts_with_ci (q t : string) : bool :=
  prefixb (list_ascii_of_string (toLowerCase q))
          (list_ascii_of_string (toLowerCase t)).

(** "t contains q case-insensitively". *)
Definition contains_ci (q t : string) : bool :=
  includes (list_ascii_of_string (toLowerCase q))
           (list_ascii_of_string (toLowerCase t)).

(** "a is lexicographically less than or equal to b under
    case-insensitive (lowercase) comparison". *)
Definition title_le (a b : string) : bool :=
  String.leb (toLowerCase a) (toLowerCase b).

(** The score the specification gives a title. *)
Definition score (q t : string) : Number.number :=
  if starts_with_ci q t
  then Number.times10 (Number.div (String.length q) (String.length t))
  else if contains_ci q t
  then Number.div (String.length q) (String.length t)
  else Number.zero.

End Spec.

(** A query without a character that means something in a pattern. *)
Definition is_char (c : ascii) : bool :=
  match RegExp.classify c with
  | RegExp.TChar => true
  | _ => false
  end.

Definition literal (q : string) : bool :=
  forallb is_char (list_ascii_of_string q).

(** The pattern a run of plain characters parses to. *)
Fixpoint lits (q : list ascii) : RegExp.regex :=
  match q with
  | [] => RegExp.Empty
  | c :: q' => RegExp.Seq (RegExp.Char c) (lits q')
  end.

(** What such a pattern matches: the subject starts with [q], up to
    case. *)
Fixpoint prefix_ci (q s : list ascii) : bool :=
  match q, s with
  | [], _ => true
  | c :: q', x :: s' => CodeUnit.same_ci c x && prefix_ci q' s'
  | _ :: _, [] => false
  end.

Fixpoint includes_ci (q s : list ascii) : bool :=
  prefix_ci q s ||
  match s with
  | [] => false
  | _ :: s' => includes_ci q s'
  end.

(* ================================================================== *)
(** ** tk/cookie.js: the cookie vault *)

Module Cookie.

(** How a computation of this script ends. [decodeURIComponent] adds
    URIError to the errors of [completion]; [NotModelled] marks what
    the embedding leaves out: the key [__proto__], a property set on a
    built-in function, and UTF-8 sequences of code points above 255. *)
Inductive exn : Type :=
| URIError
| Js (e : error).

Inductive result (A : Type) : Type :=
| Ok (a : A)
| Raise (x : exn)
| NotModelled.

Arguments Ok {A} a.
Arguments Raise {A} x.
Arguments NotModelled {A}.

(** The values the vault holds: [undefined], strings, integers, plain
    objects (their own properties in order), and the members every
    plain object inherits from [Object.prototype]. *)
#[warnings="-register-all"]
Inductive value : Type :=
| VUndefined
| VStr (s : string)
| VNum (n : Z)
| VObj (props : list (string * value))
| VBuiltin (name : string).

(** ToBoolean. *)
Definition truthy (v : value) : bool :=
  match v with
  | VUndefined => false
  | VStr s => negb (String.eqb s "")
  | VNum n => negb (n =? 0)%Z
  | VObj _ => true
  | VBuiltin _ => true
  end.

(** The property names a plain object inherits. *)
Definition inherited_names : list string :=
  ["constructor"; "toString"; "toLocaleString"; "valueOf"; "hasOwnProperty";
   "isPrototypeOf"; "propertyIsEnumerable"; "__defineGetter__";
   "__defineSetter__"; "__lookupGetter__"; "__lookupSetter__"; "__proto__"].

Definition inherited (k : string) : bool :=
  existsb (String.eqb k) inherited_names.

Fixpoint own_get (k : string) (o : list (string * value)) : option value :=
  match o with
  | [] => None
  | (k', v) :: o' => if String.eqb k k' then Some v else own_get k o'
  end.

(** The own properties of an object are listed as the engine lists
    them: the keys that are array indexes first, in ascending order,
    then the other keys in the order they were created. *)

Definition digit (c : ascii) : option N :=
  let n := N_of_ascii c in
  if (48 <=? n)%N && (n <=? 57)%N then Some (n - 48)%N else None.

Fixpoint numeral (acc : N) (s : string) : option N :=
  match s with
  | EmptyString => Some acc
  | String c s' =>
      match digit c with
      | Some d => numeral (acc * 10 + d)%N s'
      | None => None
      end
  end.

(** The array index a key is, when it is one: the decimal numeral,
    without a leading zero, of a number below 2^32 - 1. *)
Definition array_index (k : string) : option N :=
  match k with
  | EmptyString => None
  | String "0" EmptyString => Some 0%N
  | String "0" _ => None
  | _ =>
      match numeral 0 k with
      | Some n => if (n <? 4294967295)%N then Some n else None
      | None => None
      end
  end.

(** Whether a new key [k] is listed before the key [k'] that is
    there. *)
Definition listed_before (k k' : string) : bool :=
  match array_index k, array_index k' with
  | Some n, Some n' => (n <? n')%N
  | Some _, None => true
  | None, _ => false
  end.

(** A value for a key that is there: the key keeps its place. *)
Fixpoint own_replace (k : string) (v : value) (o : list (string * value))
  : list (string * value) :=
  match o with
  | [] => []
  | (k', v') :: o' =>
      if String.eqb k k' then (k', v) :: o' else (k', v') :: own_replace k v o'
  end.

(** A new key: before the first key it is listed before, else last. *)
Fixpoint own_create (k : string) (v : value) (o : list (string * value))
  : list (string * value) :=
  match o with
  | [] => [(k, v)]
  | (k', v') :: o' =>
      if listed_before k k' then (k, v) :: o else (k', v') :: own_create k v o'
  end.

(** [o[k] = v] on own properties. *)
Definition own_set (k : string) (v : value) (o : list (string * value))
  : list (string * value) :=
  match own_get k o with
  | Some _ => own_replace k v o
  | None => own_create k v o
  end.

(** [delete o[k]]. *)
Fixpoint own_delete (k : string) (o : list (string * value))
  : list (string * value) :=
  match o with
  | [] => []
  | (k', v') :: o' =>
      if String.eqb k k' then own_delete k o' else (k', v') :: own_delete k o'
  end.

(** [o[k]]: an own property, else an inherited member, else
    [undefined]. *)
Definition prop (o : list (string * value)) (k : string) : value :=
  match own_get k o with
  | Some v => v
  | None => if inherited k then VBuiltin k else VUndefined
  end.

(** The two dates the script makes when it loads, and any other. *)
Inductive date : Type :=
| forthwith
| never
| at_time (ms : Z).

(** [opts.expires]: the words 'now' and 'never', or a date. *)
Inductive expiry : Type :=
| word_now
| word_never
| on_date (d : date).

(** The options object; an absent property and a false or empty one
    are both falsy. *)
Record options : Type := mkOptions {
  expires : option expiry;
  domain : option string;
  path : option string;
  secure : bool
}.

Definition default_opts : options :=
  mkOptions None (Some ".bin.sh") (Some "/") true.

(** A string option that is set and not empty. *)
Definition given (o : option string) : option string :=
  match o with
  | Some s => if String.eqb s "" then None else Some s
  | None => None
  end.

(** What the script takes from the run time without defining it. *)
Record builtins : Type := mkBuiltins {
  toUTCString : date -> string;
  JSON_stringify : value -> string;
  JSON_parse : string -> result value
}.

(** *** [encodeURIComponent] and [decodeURIComponent] *)

Definition unreserved (c : ascii) : bool :=
  let n := nat_of_ascii c in
  CodeUnit.between 65 90 n || CodeUnit.between 97 122 n || CodeUnit.between 48 57 n ||
  existsb (Ascii.eqb c) ["-"; "_"; "."; "!"; "~"; "*"; "'"; "("; ")"]%char.

Definition hex_digit (n : nat) : ascii :=
  if (n <? 10)%nat then ascii_of_nat (48 + n)%nat else ascii_of_nat (55 + n)%nat.

Definition percent (byte : nat) : list ascii :=
  ["%"%char; hex_digit (byte / 16)%nat; hex_digit (byte mod 16)%nat].

(** One code unit: itself when unreserved, else the bytes of its UTF-8
    form, each as a percent sign and two upper-case hex digits. *)
Definition encode_unit (c : ascii) : list ascii :=
  let n := nat_of_ascii c in
  if unreserved c then [c]
  else if (n <? 128)%nat then percent n
  else percent (192 + n / 64)%nat ++ percent (128 + n mod 64)%nat.

Definition encodeURIComponent (s : string) : string :=
  string_of_list_ascii (flat_map encode_unit (list_ascii_of_string s)).

Definition hex_value (c : ascii) : option nat :=
  let n := nat_of_ascii c in
  if CodeUnit.between 48 57 n then Some (n - 48)%nat
  else if CodeUnit.between 65 70 n then Some (n - 55)%nat
  else if CodeUnit.between 97 102 n then Some (n - 87)%nat
  else None.

Definition byte_of (h l : ascii) : option nat :=
  match hex_value h, hex_value l with
  | Some a, Some b => Some (16 * a + b)%nat
  | _, _ => None
  end.

Definition cons_ok (c : ascii) (r : result (list ascii)) : result (list ascii) :=
  match r with
  | Ok s => Ok (c :: s)
  | Raise x => Raise x
  | NotModelled => NotModelled
  end.

(** Decode: a percent sign needs two hex digits; a byte below 0x80 is a
    code unit; 0xC2 and 0xC3 lead a two-byte form of a code point up
    to 255 and need a continuation byte; 0x80-0xC1 cannot start a
    character; larger lead bytes are left out. *)
Fixpoint decode (s : list ascii) : result (list ascii) :=
  match s with
  | [] => Ok []
  | "%"%char :: h :: l :: rest =>
      match byte_of h l with
      | None => Raise URIError
      | Some b =>
          if (b <? 128)%nat then cons_ok (ascii_of_nat b) (decode rest)
          else if (b <? 194)%nat then Raise URIError
          else if (b <? 196)%nat then
            match rest with
            | "%"%char :: h' :: l' :: rest' =>
                match byte_of h' l' with
                | Some b' =>
                    if CodeUnit.between 128 191 b'
                    then cons_ok (ascii_of_nat ((b - 192) * 64 + (b' - 128))%nat)
                                 (decode rest')
                    else Raise URIError
                | None => Raise URIError
                end
            | _ => Raise URIError
            end
          else NotModelled
      end
  | "%"%char :: _ => Raise URIError
  | c :: rest => cons_ok c (decode rest)
  end.

Definition decodeURIComponent (s : string) : result string :=
  match decode (list_ascii_of_string s) with
  | Ok l => Ok (string_of_list_ascii l)
  | Raise x => Raise x
  | NotModelled => NotModelled
  end.

(** *** [String.prototype.split] with a separator that is not empty *)

(** [skip] code units of a separator just found are still to pass;
    [acc] is the piece being read, last unit first. *)
Fixpoint split_go (sep : list ascii) (skip : nat) (acc s : list ascii)
  : list (list ascii) :=
  match s with
  | [] => [rev acc]
  | c :: s' =>
      match skip with
      | S k => split_go sep k acc s'
      | O =>
          if Spec.prefixb sep s
          then rev acc :: split_go sep (List.length sep - 1)%nat [] s'
          else split_go sep 0 (c :: acc) s'
      end
  end.

Definition split (sep s : string) : list string :=
  map string_of_list_ascii
      (split_go (list_ascii_of_string sep) 0 [] (list_ascii_of_string s)).

(** *** The script's state and functions *)

(** [vault] and what was assigned to [document.cookie], last first. *)
Record jar : Type := mkJar {
  vault : list (string * value);
  document_cookie : list string
}.

Definition get_cookie (j : jar) (key : option string) : value :=
  match given key with
  | Some k => prop (vault j) k
  | None => VObj (vault j)
  end.

(** The [fn] of the expires step. *)
Definition expires_attribute (B : builtins) (e : expiry) : string :=
  let d := match e with
           | word_now => forthwith
           | word_never => never
           | on_date d => d
           end in
  ("expires=" ++ toUTCString B d)%string.

(** The four [opt_steps] over [opts] and [default_opts]. *)
Definition attributes (B : builtins) (opts : options) : list string :=
  (match expires opts with
   | Some e => [expires_attribute B e]
   | None =>
       match expires default_opts with
       | Some e => [expires_attribute B e]
       | None => []
       end
   end) ++
  (match given (domain opts) with
   | Some d => [("domain=" ++ d)%string]
   | None =>
       match given (domain default_opts) with
       | Some d => [("domain=" ++ d)%string]
       | None => []
       end
   end) ++
  (match given (path opts) with
   | Some d => [("path=" ++ d)%string]
   | None =>
       match given (path default_opts) with
       | Some d => [("path=" ++ d)%string]
       | None => []
       end
   end) ++
  (if secure opts then ["secure"]
   else if secure default_opts then ["secure"] else []).

(** The text after [key=]. *)
Definition cookie_value (B : builtins) (v : value) : string :=
  match v with
  | VStr s => encodeURIComponent s
  | VUndefined | VBuiltin _ => ("json:" ++ encodeURIComponent "undefined")%string
  | _ => ("json:" ++ encodeURIComponent (JSON_stringify B v))%string
  end.

Definition set_cookie (B : builtins) (key : string) (v : value) (opts : option options)
  (j : jar) : result unit * jar :=
  if String.eqb key "__proto__" then (NotModelled, j)
  else
    let j1 := mkJar (own_set key v (vault j)) (document_cookie j) in
    let first := (key ++ "=" ++ cookie_value B v)%string in
    match opts with
    | None => (Raise (Js TypeError), j1)
    | Some o =>
        (Ok tt,
         mkJar (vault j1)
               (String.concat "; " (first :: attributes B o) :: document_cookie j1))
    end.

Definition persistent_cookie (B : builtins) (key : string) (v : value)
  (opts : option options) (j : jar) : result unit * jar :=
  let opts :=
    match opts with
    | Some o => mkOptions (Some (on_date never)) (domain o) (path o) (secure o)
    | None => mkOptions (Some (on_date never)) None None false
    end in
  set_cookie B key v (Some opts) j.

Definition set_cookie_chip (B : builtins) (key chip : string) (v : value)
  (opts : option options) (j : jar) : result unit * jar :=
  let cookie := if truthy (prop (vault j) key) then prop (vault j) key else VObj [] in
  match cookie with
  | VObj props =>
      if String.eqb chip "__proto__" then (NotModelled, j)
      else persistent_cookie B key (VObj (own_set chip v props)) opts j
  | VBuiltin _ => (NotModelled, j)
  | primitive => persistent_cookie B key primitive opts j
  end.

Definition delete_cookie (B : builtins) (key : string) (opts : option options)
  (j : jar) : result unit * jar :=
  if truthy (prop (vault j) key) then
    let j1 := mkJar (own_delete key (vault j)) (document_cookie j) in
    let opts :=
      match opts with
      | Some o => mkOptions (Some (on_date forthwith)) (domain o) (path o) (secure o)
      | None => mkOptions (Some (on_date forthwith)) None None false
      end in
    set_cookie B key (VStr "") (Some opts) j1
  else (Ok tt, j).

(** [/^json:(.+)/.exec(s)[1]]: what follows [json:] up to the first
    line terminator, when that is not empty. *)
Fixpoint until_line_end (s : list ascii) : list ascii :=
  match s with
  | [] => []
  | c :: s' => if CodeUnit.is_line_terminator c then [] else c :: until_line_end s'
  end.

Definition json_payload (s : string) : option string :=
  match list_ascii_of_string s with
  | "j"%char :: "s"%char :: "o"%char :: "n"%char :: ":"%char :: c :: rest =>
      if CodeUnit.is_line_terminator c then None
      else Some (string_of_list_ascii (c :: until_line_end rest))
  | _ => None
  end.

(** One round of the [forEach] of [load_cookies]. *)
Definition load_one (B : builtins) (cookie : string) (j : jar) : result unit * jar :=
  let list := split "=" cookie in
  let key := hd "" list in
  let text := match nth_error list 1 with
              | Some t => decodeURIComponent t
              | None => Ok "undefined"
              end in
  match text with
  | Ok t =>
      let v := match json_payload t with
               | Some payload => JSON_parse B payload
               | None => Ok (VStr t)
               end in
      match v with
      | Ok v =>
          if String.eqb key "__proto__" then (NotModelled, j)
          else (Ok tt, mkJar (own_set key v (vault j)) (document_cookie j))
      | Raise x => (Raise x, j)
      | NotModelled => (NotModelled, j)
      end
  | Raise x => (Raise x, j)
  | NotModelled => (NotModelled, j)
  end.

Fixpoint load_all (B : builtins) (cookies : list string) (j : jar) : result unit * jar :=
  match cookies with
  | [] => (Ok tt, j)
  | c :: rest =>
      match load_one B c j with
      | (Ok _, j') => load_all B rest j'
      | (Raise x, j') => (Raise x, j')
      | (NotModelled, j') => (NotModelled, j')
      end
  end.

(** [load_cookies()], [text] being what [document.cookie] reads as. *)
Definition load_cookies (B : builtins) (text : string) (j : jar) : result unit * jar :=
  load_all B (split "; " text) j.

(** The jar when the script starts. *)
Definition empty_jar : jar := mkJar [] [].

(** What [set_cookie] puts first into the text of a cookie, and what
    a browser lists for it in [document.cookie]: [key=value]. *)
Definition written (B : builtins) (kv : string * value) : string :=
  (fst kv ++ "=" ++ cookie_value B (snd kv))%string.

(** A code unit that is neither [;] nor [=]. *)
Definition plain (c : ascii) : bool :=
  negb (Ascii.eqb c ";") && negb (Ascii.eqb c "=").

(** A key without [;] and [=]. *)
Definition clean (k : string) : bool :=
  forallb plain (list_ascii_of_string k).

(** A text without a line terminator. *)
Definition one_line (t : string) : bool :=
  forallb (fun c => negb (CodeUnit.is_line_terminator c)) (list_ascii_of_string t).

(** A cookie [load_cookies] can read back: a clean key, and a string
    that does not itself look like a JSON cookie, or a number or an
    object whose JSON text is one line, not empty, and parses back to
    it. *)
Definition readable (B : builtins) (kv : string * value) : Prop :=
  clean (fst kv) = true /\ fst kv <> "__proto__" /\
  match snd kv with
  | VStr s => json_payload s = None
  | VNum _ | VObj _ =>
      JSON_stringify B (snd kv) <> "" /\
      one_line (JSON_stringify B (snd kv)) = true /\
      JSON_parse B (JSON_stringify B (snd kv)) = Ok (snd kv)
  | VUndefined | VBuiltin _ => False
  end.

(** Pieces with a separator between them. *)
Fixpoint join_units (sep : list ascii) (pieces : list (list ascii)) : list ascii :=
  match pieces with
  | [] => []
  | [x] => x
  | x :: rest => x ++ sep ++ join_units sep rest
  end.

(** The four functions other scripts call to change cookies. *)
Inductive call : Type :=
| SetCookie (key : string) (v : value) (opts : option options)
| PersistentCookie (key : string) (v : value) (opts : option options)
| SetCookieChip (key chip : string) (v : value) (opts : option options)
| DeleteCookie (key : string) (opts : option options).

Definition call_on (B : builtins) (c : call) (j : jar) : result unit * jar :=
  match c with
  | SetCookie key v opts => set_cookie B key v opts j
  | PersistentCookie key v opts => persistent_cookie B key v opts j
  | SetCookieChip key chip v opts => set_cookie_chip B key chip v opts j
  | DeleteCookie key opts => delete_cookie B key opts j
  end.

(** The jar after a run of calls; a call that throws ends alone. *)
Definition after (B : builtins) (j : jar) (calls : list call) : jar :=
  fold_left (fun j c => snd (call_on B c j)) calls j.

(** A text assigned to [document.cookie] that names a domain and a
    path, neither empty, and ends in [secure]. *)
Definition attributed (text : string) : Prop :=
  exists first attrs d p,
    text = String.concat "; "
             (first :: attrs ++ [("domain=" ++ d)%string; ("path=" ++ p)%string; "secure"]) /\
    d <> "" /\ p <> "".

End Cookie.

(** A run time for examples: the clock of a page in the UTC time zone,
    and of JSON the text of the number 1 alone. *)
Definition sample_builtins : Cookie.builtins :=
  Cookie.mkBuiltins
    (fun d =>
       match d with
       | Cookie.forthwith => "Tue, 01 Feb 2000 00:00:00 GMT"
       | Cookie.never => "Sun, 01 Feb 2037 00:00:00 GMT"
       | Cookie.at_time _ => "Thu, 01 Jan 1970 00:00:00 GMT"
       end)
    (fun v =>
       match v with
       | Cookie.VNum 1 => "1"
       | _ => "null"
       end)
    (fun t =>
       if String.eqb t "1" then Cookie.Ok (Cookie.VNum 1)
       else Cookie.Raise (Cookie.Js SyntaxError)).

(* ================================================================== *)
(** ** ux/dark_mode.js *)

Module DarkMode.

(** The page as this script sees it once [dom:loaded] has run:
    whether the body has the class [dark_mode] (a class name is taken
    to stand at most once in the class list), and the label of the
    button [toggle_dark_mode], [None] on a page without the button. *)
Record ui : Type := mkUi {
  body_dark : bool;
  button : option string
}.

Definition label (text : string) (b : option string) : option string :=
  match b with
  | Some _ => Some text
  | None => None
  end.

Definition enable_dark_mode (u : ui) : ui :=
  mkUi true (label "Undark Mode" (button u)).

Definition disable_dark_mode (u : ui) : ui :=
  mkUi false (label "Dark Mode" (button u)).

Definition toggle_dark_mode (B : Cookie.builtins) (s : ui * Cookie.jar)
  : Cookie.result unit * (ui * Cookie.jar) :=
  if Cookie.truthy (Cookie.get_cookie (snd s) (Some "dark_mode")) then
    let u := disable_dark_mode (fst s) in
    (fst (Cookie.delete_cookie B "dark_mode" None (snd s)),
     (u, snd (Cookie.delete_cookie B "dark_mode" None (snd s))))
  else
    let u := enable_dark_mode (fst s) in
    (fst (Cookie.persistent_cookie B "dark_mode" (Cookie.VNum 1) None (snd s)),
     (u, snd (Cookie.persistent_cookie B "dark_mode" (Cookie.VNum 1) None (snd s)))).

(** The [dom:loaded] handler. *)
Definition dom_loaded (s : ui * Cookie.jar) : ui * Cookie.jar :=
  if Cookie.truthy (Cookie.get_cookie (snd s) (Some "dark_mode"))
  then (enable_dark_mode (fst s), snd s)
  else s.

(** The button clicked [n] times. *)
Fixpoint clicks (B : Cookie.builtins) (n : nat) (s : ui * Cookie.jar) : ui * Cookie.jar :=
  match n with
  | O => s
  | S n' => snd (toggle_dark_mode B (clicks B n' s))
  end.

End DarkMode.

(* ================================================================== *)
(** ** common.js: extensions *)

Module Extensions.

Section Registry.

(** What an extension is called with, and what it works on. *)
Variable A : Type.
Variable S : Type.

(** An extension: it may change the state and it may throw. *)
Definition extension : Type := A -> S -> completion unit * S.

(** The object [list]: for each key that was used, its extensions in
    the order they were pushed. *)
Definition registry : Type := list (string * list extension).

Fixpoint own (key : string) (r : registry) : option (list extension) :=
  match r with
  | [] => None
  | (k, l) :: r' => if String.eqb key k then Some l else own key r'
  end.

Fixpoint push (key : string) (fn : extension) (r : registry) : registry :=
  match r with
  | [] => [(key, [fn])]
  | (k, l) :: r' =>
      if String.eqb key k then (k, l ++ [fn]) :: r' else (k, l) :: push key fn r'
  end.

(** [extend_fn]. Under a name every object inherits, [list[key]] is a
    built-in without [push], and the call throws. *)
Definition extend_fn (key : string) (fn : extension) (r : registry)
  : completion registry :=
  match own key r with
  | Some _ => Normal (push key fn r)
  | None => if Cookie.inherited key then Throw TypeError else Normal (push key fn r)
  end.

(** [l.forEach(fn => fn(args))]. *)
Fixpoint run_all (l : list extension) (args : A) (s : S) : completion unit * S :=
  match l with
  | [] => (Normal tt, s)
  | fn :: l' =>
      match fn args s with
      | (Normal _, s') => run_all l' args s'
      | (Throw e, s') => (Throw e, s')
      | (Unsupported, s') => (Unsupported, s')
      end
  end.

(** [run_extensions]. *)
Definition run_extensions (key : string) (args : A) (r : registry) (s : S)
  : completion unit * S :=
  match own key r with
  | Some l => run_all l args s
  | None => if Cookie.inherited key then (Throw TypeError, s) else (Normal tt, s)
  end.

(** [extend_fn] called for each pair in turn, up to the first call that
    throws. *)
Fixpoint extend_all (pairs : list (string * extension)) (r : registry)
  : completion registry :=
  match pairs with
  | [] => Normal r
  | (k, fn) :: rest =>
      match extend_fn k fn r with
      | Normal r' => extend_all rest r'
      | Throw e => Throw e
      | Unsupported => Unsupported
      end
  end.

End Registry.

End Extensions.

(* ================================================================== *)
(** ** Sample pages, jars and closed forms used in the statements below *)

(** The page after three ArrowDown on the results of "o", a click, and
    "Gob" put into the field without a key released. *)
Definition pasted : page :=
  Eval vm_compute in
    run (loaded (Some monsters))
        [Edit "o"; KeyUp "KeyO"; KeyUp "ArrowDown"; KeyUp "ArrowDown";
         KeyUp "ArrowDown"; Click; Edit "Gob"].

Definition ranked_gob : list entry :=
  Eval vm_compute in
    match ranked_list "Gob" (Some monsters) with
    | Normal l => l
    | _ => []
    end.

(** The page after three ArrowDown on the results of "o" and "Gob" put
    over the query with the mouse: no key released, no click on the
    document. *)
Definition replaced : page :=
  Eval vm_compute in
    run (loaded (Some monsters))
        [Edit "o"; KeyUp "KeyO"; KeyUp "ArrowDown"; KeyUp "ArrowDown";
         KeyUp "ArrowDown"; Edit "Gob"].

(** The page with the results of "Go" shown and "?" typed, before the
    key is released. *)
Definition asking : page :=
  Eval vm_compute in
    run (loaded (Some monsters)) [Edit "Go"; KeyUp "KeyO"; Edit "?"].

(** The cursor after a key other than Enter is released on a ranked
    list of [len] entries (lines 245-250 and 259). *)
Definition moved (code : string) (len : nat) (sel : Z) : Z :=
  if String.eqb code "ArrowDown" then Z.min (sel + 1) (Z.of_nat len - 1)
  else if String.eqb code "ArrowUp" then Z.max (sel - 1) 0
  else (-1)%Z.

(** The list [render_results] draws: the entry under the cursor, if
    there is one, with [selected] set. *)
Definition drawn (sel : Z) (l : list entry) : list entry :=
  if (sel >=? 0)%Z && (sel <? Z.of_nat (List.length l))%Z
  then update_nth set_selected (Z.to_nat sel) l
  else l.

(** The page with "Go" in the field and nothing drawn yet; the query
    "Go" against [gorgon_first] ranks two entries. *)
Definition typed_go : page :=
  Eval vm_compute in step (loaded (Some gorgon_first)) (Edit "Go").

Definition ranked_two : list entry :=
  Eval vm_compute in
    match ranked_list "Go" (Some gorgon_first) with
    | Normal l => l
    | _ => []
    end.

(** The jar after [persistent_cookie('dark_mode', 1)], and one whose
    vault holds the state of one sidebar section. *)
Definition dark_jar : Cookie.jar :=
  Eval vm_compute in
    snd (Cookie.persistent_cookie sample_builtins "dark_mode" (Cookie.VNum 1) None
           Cookie.empty_jar).


(** An extension that writes its name to a log. *)
Definition logs (name : string) : Extensions.extension string (list string) :=
  fun args log => (Normal tt, (name ++ "(" ++ args ++ ")")%string :: log).

(* ================================================================== *)
(** ** Code units *)

Lemma prefixb_spec (a b : list ascii) :
  Spec.prefixb a b = true <-> exists c, b = a ++ c.
Proof.
  revert b; induction a as [|x a IH]; intros b; simpl.
  - split; [intros _; now exists b | reflexivity].
  - destruct b as [|y b].
    + split; [discriminate | intros [c H]; discriminate].
    + rewrite andb_true_iff, Ascii.eqb_eq, IH. split.
      * intros [-> [c ->]]. now exists c.
      * intros [c H]. injection H as -> ->. split; [reflexivity | now exists c].
Qed.

Lemma includes_spec (n h : list ascii) :
  Spec.includes n h = true <-> exists a c, h = a ++ n ++ c.
Proof.
  induction h as [|y h IH]; simpl.
  - rewrite orb_false_r, prefixb_spec. split.
    + intros [c H]. now exists [], c.
    + intros [a [c H]]. destruct a; [now exists c | discriminate].
  - rewrite orb_true_iff, prefixb_spec, IH. split.
    + intros [[c H] | [a [c H]]].
      * now exists [], c.
      * exists (y :: a), c. now rewrite H.
    + intros [[|x a] [c H]].
      * left. now exists c.
      * right. injection H as -> ->. now exists a, c.
Qed.

Lemma lower_canonicalize (c : ascii) :
  CodeUnit.toLowerCase (CodeUnit.canonicalize c) = CodeUnit.toLowerCase c.
Proof. destruct c as [[] [] [] [] [] [] [] []]; reflexivity. Qed.

Lemma canonicalize_lower (c : ascii) :
  CodeUnit.canonicalize (CodeUnit.toLowerCase c) = CodeUnit.canonicalize c.
Proof. destruct c as [[] [] [] [] [] [] [] []]; reflexivity. Qed.

(** Two code units match under the ignore-case flag exactly when their
    lower cases are equal. *)
Lemma same_ci_lower (a b : ascii) :
  CodeUnit.same_ci a b =
  Ascii.eqb (CodeUnit.toLowerCase a) (CodeUnit.toLowerCase b).
Proof.
  unfold CodeUnit.same_ci.
  destruct (Ascii.eqb (CodeUnit.toLowerCase a) (CodeUnit.toLowerCase b)) eqn:E.
  - apply Ascii.eqb_eq in E. apply Ascii.eqb_eq.
    rewrite <- (canonicalize_lower a), <- (canonicalize_lower b). now rewrite E.
  - apply Ascii.eqb_neq in E. apply Ascii.eqb_neq. intros H. apply E.
    rewrite <- (lower_canonicalize a), <- (lower_canonicalize b). now rewrite H.
Qed.

Lemma lower_list (s : string) :
  list_ascii_of_string (Spec.toLowerCase s) =
  map CodeUnit.toLowerCase (list_ascii_of_string s).
Proof. induction s as [|c s IH]; simpl; [reflexivity | now rewrite IH]. Qed.

Lemma length_list (s : string) :
  List.length (list_ascii_of_string s) = String.length s.
Proof. induction s as [|c s IH]; simpl; [reflexivity | now rewrite IH]. Qed.

(* ================================================================== *)
(** ** Patterns at work *)

(** A query is a pattern: "^a|b" is "a at the start, or b anywhere",
    "go.*n$" spans any characters up to a final n, and an open
    parenthesis alone does not compile. *)
Example patterns_at_work :
  match RegExp.new_RegExp "^a|b", RegExp.new_RegExp "go.*n$", RegExp.new_RegExp "("
  with
  | Normal r, Normal r', Throw SyntaxError =>
      RegExp.test r "xxb" = true /\ RegExp.test r "xxa" = false /\
      RegExp.test r' "Gorgon" = true /\ RegExp.test r' "Gorgons" = false
  | _, _, _ => False
  end.
Proof. repeat split. Qed.

(* ================================================================== *)
(** ** Numbers at work *)

(** A quotient that has a binary expansion of 53 bits is stored as it
    is, any other is rounded: 1/10 is stored as 3602879701896397/2^55.
    The two scores 5/6 and (5/60)*10 are equal before rounding and
    differ after, so a title of 6 code units that contains a query of
    5 is ranked before a title of 60 that starts with it. *)
Example numbers_at_work :
  Number.div 1 2 = Number.Fin (1 # 2) /\
  Number.times10 (Number.div 1 4) = Number.Fin (5 # 2) /\
  Number.div 1 10 = Number.Fin (3602879701896397 # 36028797018963968) /\
  Number.div 1 3 = Number.Fin (6004799503160661 # 18014398509481984) /\
  Number.times10 (Number.div 1 10) = Number.Fin 1 /\
  Number.lt (Number.times10 (Number.div 5 60)) (Number.div 5 6) = true /\
  match ranked_list "hello"
          (Some [("hello-------------------------------------------------------", "/long");
                 ("Xhello", "/short")])
  with
  | Normal l => map url l = ["/short"; "/long"]
  | _ => False
  end.
Proof. vm_compute. repeat split. Qed.

(** An object lists the keys that are array indexes first, in
    ascending order, whenever they were created; "07" and 2^32 - 1 are
    not array indexes. *)
Example keys_at_work :
  map fst
    (fold_left (fun o k => Cookie.own_set k Cookie.VUndefined o)
       ["nav"; "10"; "07"; "7"; "4294967295"; "0"; "nav"; "4294967294"] []) =
  ["0"; "7"; "10"; "4294967294"; "nav"; "07"; "4294967295"].
Proof. reflexivity. Qed.

(* ================================================================== *)
(** ** The rounds of a quantifier *)

(** More rounds than code units remain change nothing: the bound on
    the rounds in [RegExp.repeat_from] cuts no match off. *)
Lemma iterate_fuel (step : RegExp.pos -> list RegExp.pos) (fuel : nat) (p : RegExp.pos) :
  (RegExp.remaining p < fuel)%nat ->
  RegExp.iterate step (S fuel) p = RegExp.iterate step fuel p.
Proof.
  revert p; induction fuel as [|fuel IH]; intros p Hp; [lia|].
  change (RegExp.iterate step (S (S fuel)) p) with
    (p :: flat_map
            (fun p' => if (RegExp.remaining p' <? RegExp.remaining p)%nat
                       then RegExp.iterate step (S fuel) p' else [])
            (step p)).
  change (RegExp.iterate step (S fuel) p) with
    (p :: flat_map
            (fun p' => if (RegExp.remaining p' <? RegExp.remaining p)%nat
                       then RegExp.iterate step fuel p' else [])
            (step p)).
  f_equal. apply flat_map_ext. intros p'.
  destruct (RegExp.remaining p' <? RegExp.remaining p)%nat eqn:E; [|reflexivity].
  apply Nat.ltb_lt in E. apply IH. lia.
Qed.

Lemma repeat_from_fuel (step : RegExp.pos -> list RegExp.pos) (k : nat) (p : RegExp.pos) :
  RegExp.iterate step (S (RegExp.remaining p) + k) p = RegExp.repeat_from step p.
Proof.
  unfold RegExp.repeat_from. induction k as [|k IH].
  - now rewrite Nat.add_0_r.
  - rewrite Nat.add_succ_r, iterate_fuel; [exact IH | lia].
Qed.

(* ================================================================== *)
(** ** Patterns made of plain characters *)

Section LiteralPatterns.

Import RegExp.

Lemma mkseq_snoc (terms : list regex) (t : regex) :
  mkseq (terms ++ [t]) = Seq t (mkseq terms).
Proof. unfold mkseq. now rewrite fold_left_app. Qed.

Lemma mkseq_lits (q : list ascii) : mkseq (rev (map Char q)) = lits q.
Proof.
  induction q as [|c q IH]; [reflexivity|].
  simpl. now rewrite mkseq_snoc, IH.
Qed.

Lemma parse_plain (q rest : list ascii) (f : frame) (stack : list frame) :
  forallb is_char q = true ->
  parse (q ++ rest) f stack =
  parse rest
        (mkFrame (alts f) (rev (map Char q) ++ cur f)
                 (match q with [] => st f | _ :: _ => Atom end))
        stack.
Proof.
  revert f; induction q as [|c q IH]; intros f Hq.
  - now destruct f.
  - simpl in Hq. apply andb_true_iff in Hq as [Hc Hq].
    change ((c :: q) ++ rest) with (c :: (q ++ rest)).
    unfold is_char in Hc. simpl parse.
    destruct (classify c); try discriminate.
    rewrite (IH _ Hq). simpl. rewrite <- app_assoc. simpl.
    now destruct q.
Qed.

Lemma new_RegExp_literal (q : string) :
  literal q = true ->
  new_RegExp q = Normal (lits (list_ascii_of_string q)).
Proof.
  intros Hq. unfold new_RegExp.
  rewrite <- (app_nil_r (list_ascii_of_string q)) at 1.
  rewrite (parse_plain _ _ _ _ Hq). simpl.
  unfold mkalt. simpl. now rewrite app_nil_r, mkseq_lits.
Qed.

Lemma new_RegExp_lead_literal (q : string) :
  literal q = true ->
  new_RegExp ("^" ++ q)%string = Normal (Seq Bol (lits (list_ascii_of_string q))).
Proof.
  intros Hq. unfold new_RegExp. simpl.
  rewrite <- (app_nil_r (list_ascii_of_string q)) at 1.
  rewrite (parse_plain _ _ _ _ Hq). simpl.
  unfold mkalt. simpl. now rewrite mkseq_snoc, mkseq_lits.
Qed.

Lemma ends_lits (q : list ascii) (b : bool) (s : list ascii) :
  ends (lits q) (b, s) =
  if prefix_ci q s
  then [(match q with [] => b | _ :: _ => false end, skipn (List.length q) s)]
  else [].
Proof.
  revert b s; induction q as [|c q IH]; intros b s; [reflexivity|].
  simpl. destruct s as [|x s]; [reflexivity|].
  destruct (CodeUnit.same_ci c x); [|reflexivity].
  simpl. rewrite IH, app_nil_r.
  destruct (prefix_ci q s); [|reflexivity]. now destruct q.
Qed.

Lemma matches_lits (q : list ascii) (p : pos) :
  matches_at (lits q) p = prefix_ci q (snd p).
Proof.
  destruct p as [b s]. unfold matches_at. rewrite ends_lits. simpl.
  now destruct (prefix_ci q s).
Qed.

Lemma matches_lead (q : list ascii) (p : pos) :
  matches_at (Seq Bol (lits q)) p = fst p && prefix_ci q (snd p).
Proof.
  destruct p as [b s]. unfold matches_at. simpl ends.
  destruct b; simpl; [|reflexivity].
  rewrite ends_lits, app_nil_r. now destruct (prefix_ci q s).
Qed.

Lemma exists_partial (q : list ascii) (b : bool) (s : list ascii) :
  existsb (matches_at (lits q)) (starts b s) = includes_ci q s.
Proof.
  revert b; induction s as [|x s IH]; intros b; cbn [existsb starts includes_ci].
  - now rewrite matches_lits.
  - now rewrite matches_lits, IH.
Qed.

Lemma no_lead_inside (q s : list ascii) :
  existsb (matches_at (Seq Bol (lits q))) (starts false s) = false.
Proof.
  induction s as [|x s IH]; cbn [existsb starts].
  - now rewrite matches_lead.
  - now rewrite matches_lead, IH.
Qed.

Lemma exists_lead (q s : list ascii) :
  existsb (matches_at (Seq Bol (lits q))) (starts true s) = prefix_ci q s.
Proof.
  destruct s as [|x s]; cbn [existsb starts].
  - rewrite matches_lead. cbn [fst snd andb]. now rewrite orb_false_r.
  - rewrite matches_lead, no_lead_inside. cbn [fst snd andb]. now rewrite orb_false_r.
Qed.

Lemma prefix_ci_lower (q s : list ascii) :
  prefix_ci q s =
  Spec.prefixb (map CodeUnit.toLowerCase q) (map CodeUnit.toLowerCase s).
Proof.
  revert s; induction q as [|c q IH]; intros s; [reflexivity|].
  destruct s as [|x s]; [reflexivity|].
  simpl. now rewrite same_ci_lower, IH.
Qed.

Lemma includes_ci_lower (q s : list ascii) :
  includes_ci q s =
  Spec.includes (map CodeUnit.toLowerCase q) (map CodeUnit.toLowerCase s).
Proof.
  induction s as [|x s IH]; simpl.
  - now rewrite prefix_ci_lower.
  - now rewrite prefix_ci_lower, IH.
Qed.

(** [lead.test(t)] for a query of plain characters. *)
Lemma test_lead_literal (q t : string) :
  test (Seq Bol (lits (list_ascii_of_string q))) t = Spec.starts_with_ci q t.
Proof.
  unfold test, Spec.starts_with_ci.
  now rewrite exists_lead, prefix_ci_lower, !lower_list.
Qed.

(** [partial.test(t)] for a query of plain characters. *)
Lemma test_partial_literal (q t : string) :
  test (lits (list_ascii_of_string q)) t = Spec.contains_ci q t.
Proof.
  unfold test, Spec.contains_ci.
  now rewrite exists_partial, includes_ci_lower, !lower_list.
Qed.

End LiteralPatterns.

(* ================================================================== *)
(** ** Scores *)

Lemma nearest_even_positive (n d : Z) :
  (0 < d)%Z -> (d <= n)%Z -> (0 < Number.nearest_even n d)%Z.
Proof.
  intros Hd Hn. unfold Number.nearest_even.
  assert (H : (0 < n / d)%Z) by (apply Z.div_str_pos; lia).
  destruct (2 * (n mod d) ?= d)%Z; [destruct (Z.even (n / d))| |]; lia.
Qed.

(** Scaled by an exponent below that of [a / b], the fraction is at
    least 1. *)
Lemma scale_below (e : Z) (a b : BinNums.positive) :
  (e <= Z.log2 (Zpos a) - Z.log2 (Zpos b) - 1)%Z ->
  (0 < snd (Number.scale e a b) <= fst (Number.scale e a b))%Z.
Proof.
  intros He. unfold Number.scale.
  pose proof (Z.log2_spec (Zpos a) eq_refl) as [Ha _].
  pose proof (Z.log2_spec (Zpos b) eq_refl) as [_ Hb].
  pose proof (Z.log2_nonneg (Zpos a)) as Hla.
  pose proof (Z.log2_nonneg (Zpos b)) as Hlb.
  destruct (0 <=? e)%Z eqn:E; cbn [fst snd].
  - apply Z.leb_le in E.
    assert (H2 : (0 < 2 ^ e)%Z) by (apply Z.pow_pos_nonneg; lia).
    split; [lia|].
    assert (H : (Zpos b * 2 ^ e <= 2 ^ (Z.succ (Z.log2 (Zpos b))) * 2 ^ e)%Z) by nia.
    rewrite <- Z.pow_add_r in H by lia.
    assert (H' : (2 ^ (Z.succ (Z.log2 (Zpos b)) + e) <= 2 ^ Z.log2 (Zpos a))%Z)
      by (apply Z.pow_le_mono_r; lia).
    lia.
  - apply Z.leb_gt in E.
    assert (H2 : (0 < 2 ^ (- e))%Z) by (apply Z.pow_pos_nonneg; lia).
    split; [lia|].
    assert (H : (2 ^ Z.log2 (Zpos a) * 2 ^ (- e) <= Zpos a * 2 ^ (- e))%Z) by nia.
    rewrite <- Z.pow_add_r in H by lia.
    assert (H' : (2 ^ (Z.succ (Z.log2 (Zpos b))) <= 2 ^ (Z.log2 (Zpos a) + - e))%Z)
      by (apply Z.pow_le_mono_r; lia).
    lia.
Qed.

Lemma exponent_below (a b : BinNums.positive) :
  (Number.exponent a b <= Z.log2 (Zpos a) - Z.log2 (Zpos b))%Z.
Proof.
  unfold Number.exponent.
  destruct (fst (Number.scale _ a b) <? snd (Number.scale _ a b))%Z; lia.
Qed.

Lemma round_pos_positive (a b : BinNums.positive) : (0 < Number.round_pos a b)%Q.
Proof.
  unfold Number.round_pos.
  assert (He : (Number.exponent a b - 52 <= Z.log2 (Zpos a) - Z.log2 (Zpos b) - 1)%Z)
    by (pose proof (exponent_below a b); lia).
  destruct (scale_below _ a b He) as [Hd Hn].
  pose proof (nearest_even_positive _ _ Hd Hn) as Hm.
  destruct (0 <=? Number.exponent a b - 52)%Z eqn:E.
  - apply Z.leb_le in E.
    assert (H2 : (0 < 2 ^ (Number.exponent a b - 52))%Z)
      by (apply Z.pow_pos_nonneg; lia).
    unfold Qlt, inject_Z. cbn [Qnum Qden]. nia.
  - rewrite Qred_correct. unfold Qlt. cbn [Qnum Qden]. lia.
Qed.

(** Rounding keeps the sign: no result that is not 0 is rounded to 0. *)
Lemma round_sign (x : Q) : (Number.round x ?= 0)%Q = (x ?= 0)%Q.
Proof.
  destruct x as [[|a|a] b]; unfold Number.round; cbn [Qnum Qden].
  - reflexivity.
  - pose proof (round_pos_positive a b) as H.
    apply Qgt_alt in H. change ((Number.round_pos a b ?= 0)%Q = Gt) in H.
    rewrite H. reflexivity.
  - pose proof (round_pos_positive a b) as H.
    assert (H' : (- Number.round_pos a b < 0)%Q).
    { apply Qopp_lt_compat in H. exact H. }
    apply Qlt_alt in H'. change ((- Number.round_pos a b ?= 0)%Q = Lt) in H'.
    rewrite H'. reflexivity.
Qed.

Lemma gt_zero (q : Q) :
  Number.gt (Number.Fin q) Number.zero =
  match (q ?= 0)%Q with Gt => true | _ => false end.
Proof.
  unfold Number.gt, Number.lt, Number.zero.
  rewrite <- (Qcompare_antisym q 0). now destruct (q ?= 0)%Q.
Qed.

Lemma div_positive (n m : nat) :
  Number.gt (Number.div n m) Number.zero = (0 <? n)%nat.
Proof.
  destruct m as [|m]; [destruct n; reflexivity|].
  unfold Number.div. rewrite gt_zero, round_sign.
  destruct n as [|n]; reflexivity.
Qed.

Lemma times10_positive (x : Number.number) :
  Number.gt (Number.times10 x) Number.zero = Number.gt x Number.zero.
Proof.
  destruct x as [q| |]; try reflexivity.
  unfold Number.times10. rewrite !gt_zero, round_sign.
  destruct q as [a b]. unfold Qcompare, Qmult. simpl.
  rewrite Z.mul_1_r.
  destruct a as [|a|a]; reflexivity.
Qed.

(** A score is positive exactly when one of the two patterns matches
    and the query is not empty. *)
Lemma score_of_positive (lead partial : RegExp.regex) (q t : string) :
  Number.gt (score_of lead partial q t) Number.zero =
  (RegExp.test lead t || RegExp.test partial t) && (0 <? String.length q)%nat.
Proof.
  unfold score_of.
  destruct (RegExp.test lead t); cbn [orb andb].
  - now rewrite times10_positive, div_positive.
  - destruct (RegExp.test partial t); cbn [orb andb].
    + now rewrite div_positive.
    + reflexivity.
Qed.

Lemma prefixb_includes (a b : list ascii) :
  Spec.prefixb a b = true -> Spec.includes a b = true.
Proof. intros H. destruct b; simpl in *; now rewrite H. Qed.

Lemma starts_contains (q t : string) :
  Spec.starts_with_ci q t = true -> Spec.contains_ci q t = true.
Proof. apply prefixb_includes. Qed.

(** For a query of plain characters the code's score is the
    specification's. *)
Lemma score_of_literal (q t : string) :
  score_of (RegExp.Seq RegExp.Bol (lits (list_ascii_of_string q)))
           (lits (list_ascii_of_string q)) q t
  = Spec.score q t.
Proof.
  unfold score_of, Spec.score.
  now rewrite test_lead_literal, test_partial_literal.
Qed.

Lemma literal_positive (q t : string) :
  Number.gt (Spec.score q t) Number.zero =
  Spec.contains_ci q t && (0 <? String.length q)%nat.
Proof.
  rewrite <- score_of_literal, score_of_positive.
  rewrite test_lead_literal, test_partial_literal.
  destruct (Spec.starts_with_ci q t) eqn:E; [|reflexivity].
  now rewrite (starts_contains _ _ E).
Qed.

(* ================================================================== *)
(** ** The candidate list *)

Section BuildList.

Variables lead partial : RegExp.regex.
Variable query : string.

Let entry_of (t u : string) : entry :=
  mkEntry t u (score_of lead partial query t) String_prototype_toLowerCase false.

Lemma in_build_list (props : index) (e : entry) :
  In e (build_list lead partial query props) <->
  exists t u, In (t, u) props /\ e = entry_of t u /\
              Number.gt (score_of lead partial query t) Number.zero = true.
Proof.
  induction props as [|[t u] props IH]; cbn [build_list].
  - split; [contradiction | intros (t & u & [] & _)].
  - destruct (Number.gt (score_of lead partial query t) Number.zero) eqn:E.
    + cbn [In]. rewrite IH. split.
      * intros [<- | (t' & u' & Hin & He & Hs)].
        -- exists t, u. cbn [In]. auto.
        -- exists t', u'. cbn [In]. auto.
      * intros (t' & u' & [Heq | Hin] & He & Hs).
        -- injection Heq as <- <-. now left.
        -- right. now exists t', u'.
    + rewrite IH. split.
      * intros (t' & u' & Hin & He & Hs). exists t', u'. cbn [In]. auto.
      * intros (t' & u' & [Heq | Hin] & He & Hs).
        -- injection Heq as <- <-. congruence.
        -- now exists t', u'.
Qed.

Lemma title_in_build_list (props : index) (t : string) :
  In t (map title (build_list lead partial query props)) <->
  In t (map fst props) /\
  Number.gt (score_of lead partial query t) Number.zero = true.
Proof.
  rewrite in_map_iff. split.
  - intros (e & <- & He). apply in_build_list in He as (t' & u & Hin & -> & Hs).
    simpl. split; [|exact Hs]. apply in_map_iff. now exists (t', u).
  - intros (Hin & Hs). apply in_map_iff in Hin as ([t' u] & <- & Hin).
    exists (entry_of t' u). split; [reflexivity|].
    apply in_build_list. now exists t', u.
Qed.

Lemma build_list_positive (props : index) :
  Forall (fun e => Number.gt (score e) Number.zero = true)
         (build_list lead partial query props).
Proof.
  apply Forall_forall. intros e He.
  apply in_build_list in He as (t & u & _ & -> & Hs). exact Hs.
Qed.

Lemma build_list_fresh (props : index) :
  Forall (fun e => selected e = false) (build_list lead partial query props).
Proof.
  apply Forall_forall. intros e He.
  now apply in_build_list in He as (t & u & _ & -> & _).
Qed.

End BuildList.

(* ================================================================== *)
(** ** Sorting and cutting *)

Section SortFacts.

Context {A : Type}.
Variable cmp : A -> A -> Z.

Lemma insert_perm (x : A) (l : list A) : Permutation (x :: l) (insert cmp x l).
Proof.
  induction l as [|y l IH]; simpl; [reflexivity|].
  destruct (cmp x y <=? 0)%Z; [reflexivity|].
  rewrite perm_swap. now constructor.
Qed.

Lemma sort_perm (l : list A) : Permutation l (sort cmp l).
Proof.
  induction l as [|x l IH]; simpl; [constructor|].
  rewrite <- insert_perm. now constructor.
Qed.

Lemma sort_length (l : list A) : List.length (sort cmp l) = List.length l.
Proof. symmetry. apply Permutation_length, sort_perm. Qed.

Lemma sort_in (l : list A) (x : A) : In x (sort cmp l) <-> In x l.
Proof.
  split; apply Permutation_in; [symmetry|]; apply sort_perm.
Qed.

End SortFacts.

Lemma rank_eq (l : list entry) : rank l = firstn 10 (sort compare_entries l).
Proof.
  unfold rank, slice0.
  destruct (10 <? List.length (sort compare_entries l))%nat eqn:E; [reflexivity|].
  apply Nat.ltb_ge in E. symmetry. now apply firstn_all2.
Qed.

Lemma rank_length (l : list entry) :
  List.length (rank l) = Nat.min 10 (List.length l).
Proof. now rewrite rank_eq, length_firstn, sort_length. Qed.

Lemma rank_in (l : list entry) (e : entry) : In e (rank l) -> In e l.
Proof.
  rewrite rank_eq. intros H. apply (sort_in compare_entries).
  rewrite <- (firstn_skipn 10). apply in_or_app. now left.
Qed.

Lemma rank_all (l : list entry) (e : entry) :
  (List.length l <= 10)%nat -> In e l -> In e (rank l).
Proof.
  intros Hlen He. rewrite rank_eq, firstn_all2.
  - now apply sort_in.
  - now rewrite sort_length.
Qed.

(* ================================================================== *)
(** ** The handler and the ranked list *)

Lemma rank_nonempty (l : list entry) :
  (0 <? List.length l)%nat = true -> (0 <? List.length (rank l))%nat = true.
Proof.
  rewrite rank_length. rewrite !Nat.ltb_lt. lia.
Qed.

(** The pass computes [ranked_list] of the query field and the index,
    and writes nothing. *)
Lemma search_pass_eq (p : page) :
  search_pass p = (ranked_list (index_query p) (site_index p), p).
Proof.
  unfold search_pass, ranked_list, candidates, bind, getValue, lift,
    Object_keys_site_index, ret.
  destruct (RegExp.new_RegExp ("^" ++ index_query p)%string); try reflexivity.
  destruct (RegExp.new_RegExp (index_query p)); try reflexivity.
  destruct (site_index p) as [|[props|]]; try reflexivity.
  unfold rank.
  now destruct (0 <? List.length _)%nat.
Qed.

(** [search_index] is the pass followed by [dispatch] on a list that is
    not empty, and by emptying and hiding the results otherwise. *)
Lemma search_index_eq (code : string) (p : page) :
  search_index code p =
  match ranked_list (index_query p) (site_index p) with
  | Normal l =>
      if (0 <? List.length l)%nat then dispatch code l p
      else (update None ;; hide) p
  | Throw e => (Throw e, p)
  | Unsupported => (Unsupported, p)
  end.
Proof.
  unfold search_index, ranked_list, candidates, bind at 1 2 3 4, getValue, lift,
    Object_keys_site_index.
  destruct (RegExp.new_RegExp ("^" ++ index_query p)%string); try reflexivity.
  destruct (RegExp.new_RegExp (index_query p)); try reflexivity.
  destruct (site_index p) as [|[props|]]; try reflexivity.
  destruct (0 <? List.length (build_list a a0 (index_query p) props))%nat eqn:E.
  - rewrite (rank_nonempty _ E). reflexivity.
  - rewrite E. reflexivity.
Qed.

(* ================================================================== *)
(** ** Filtering *)

Lemma candidates_literal (q : string) (props : index) :
  literal q = true ->
  candidates q (Some props) =
  Normal (build_list (RegExp.Seq RegExp.Bol (lits (list_ascii_of_string q)))
                     (lits (list_ascii_of_string q)) q props).
Proof.
  intros Hq. unfold candidates.
  now rewrite (new_RegExp_lead_literal q Hq), (new_RegExp_literal q Hq).
Qed.

Lemma length_positive_iff (q : string) :
  (0 <? String.length q)%nat = true <-> q <> "".
Proof.
  destruct q as [|c q]; simpl; split.
  - discriminate.
  - intros H. now contradiction H.
  - discriminate.
  - reflexivity.
Qed.

(** C1, as stated, at the empty query: every title contains the empty
    string, and the pass keeps none, because its score is 0 and only a
    positive score is pushed. *)
Lemma C1_empty_query_keeps_nothing :
  In "Goblin" (map fst monsters) /\
  Spec.contains_ci "" "Goblin" = true /\
  candidates "" (Some monsters) = Normal [] /\
  ranked_list "" (Some monsters) = Normal [].
Proof. repeat split. now left. Qed.

(** C1, amended: for a query without a character that means something
    in a pattern, a title of the index is among the candidates of the
    pass exactly when the query is not empty and the title contains it
    case-insensitively; every title of the ranked list is such a title;
    and when there are at most ten candidates every such title is in
    the ranked list. *)
Theorem C1_plain_query_filter (q : string) (props : index) :
  literal q = true ->
  exists cands ranked,
    candidates q (Some props) = Normal cands /\
    ranked_list q (Some props) = Normal ranked /\
    forall t, In t (map fst props) ->
      (In t (map title cands) <-> q <> "" /\ Spec.contains_ci q t = true) /\
      (In t (map title ranked) -> q <> "" /\ Spec.contains_ci q t = true) /\
      ((List.length cands <= 10)%nat ->
       q <> "" -> Spec.contains_ci q t = true -> In t (map title ranked)).
Proof.
  intros Hq.
  pose proof (candidates_literal q props Hq) as Hc.
  set (cands := build_list _ _ q props) in Hc.
  exists cands, (if (0 <? List.length cands)%nat then rank cands else cands).
  split; [exact Hc|]. split; [unfold ranked_list; now rewrite Hc|].
  intros t Ht.
  assert (Hin : In t (map title cands) <-> q <> "" /\ Spec.contains_ci q t = true).
  { unfold cands. rewrite title_in_build_list, score_of_literal, literal_positive.
    rewrite andb_true_iff, length_positive_iff. tauto. }
  split; [exact Hin|]. split.
  - intros H. apply Hin. destruct (0 <? List.length cands)%nat; [|exact H].
    apply in_map_iff in H as (e & <- & He). apply in_map, rank_in, He.
  - intros Hlen Hne H. assert (H' : In t (map title cands)) by (apply Hin; auto).
    destruct (0 <? List.length cands)%nat; [|exact H'].
    apply in_map_iff in H' as (e & <- & He). apply in_map, rank_all; assumption.
Qed.

Lemma C1_plain_query_filter_witness :
  literal "Go" = true /\
  exists cands ranked,
    candidates "Go" (Some monsters) = Normal cands /\
    ranked_list "Go" (Some monsters) = Normal ranked /\
    forall t, In t (map fst monsters) ->
      (In t (map title cands) <-> "Go" <> "" /\ Spec.contains_ci "Go" t = true) /\
      (In t (map title ranked) -> "Go" <> "" /\ Spec.contains_ci "Go" t = true) /\
      ((List.length cands <= 10)%nat ->
       "Go" <> "" -> Spec.contains_ci "Go" t = true -> In t (map title ranked)).
Proof.
  split; [reflexivity|].
  exact (C1_plain_query_filter "Go" monsters eq_refl).
Defined.

(* ================================================================== *)
(** ** Ordering *)

(** The tie-break of the comparison function never decides: both of
    its operands are the one function object. *)
Lemma compare_entries_score (a b : entry) :
  compare_entries a b =
  if Number.gt (score a) (score b) then (-1)%Z
  else if Number.lt (score a) (score b) then 1%Z
  else 0%Z.
Proof.
  unfold compare_entries.
  destruct (title_lc a), (title_lc b).
  destruct (Number.gt (score a) (score b)); [reflexivity|].
  destruct (Number.lt (score a) (score b)); reflexivity.
Qed.

(** C2 at [gorgon_first] and the query "Go": both titles score
    (2/6)*10, the comparison function returns 0 for them, and the
    ranked list keeps the order of the index, "Gorgon" before "Goblin",
    although "goblin" is the smaller lower-case title. *)
Theorem C2_tie_keeps_index_order :
  ranked_list "Go" (Some gorgon_first) =
    Normal [mkEntry "Gorgon" "/gorgon" (Number.times10 (Number.div 2 6))
                    String_prototype_toLowerCase false;
            mkEntry "Goblin" "/goblin" (Number.times10 (Number.div 2 6))
                    String_prototype_toLowerCase false] /\
  Number.eq (Number.times10 (Number.div 2 6)) (Number.times10 (Number.div 2 6)) = true /\
  Spec.title_le "Gorgon" "Goblin" = false /\
  Spec.title_le "Goblin" "Gorgon" = true.
Proof. repeat split. Qed.

(* ================================================================== *)
(** ** Scoring *)

(** C3 at the query "." and the title "Goblin": the title neither
    starts with nor contains a full stop, so its score should be 0 and
    the title left out; the pattern [^.] matches its first character
    and the pass pushes it with the score (1/6)*10. *)
Theorem C3_pattern_character_scores :
  Spec.starts_with_ci "." "Goblin" = false /\
  Spec.contains_ci "." "Goblin" = false /\
  Spec.score "." "Goblin" = Number.zero /\
  candidates "." (Some [("Goblin", "/goblin")]) =
    Normal [mkEntry "Goblin" "/goblin" (Number.times10 (Number.div 1 6))
                    String_prototype_toLowerCase false] /\
  Number.gt (Number.times10 (Number.div 1 6)) Number.zero = true.
Proof. repeat split. Qed.

(* ================================================================== *)
(** ** Truncation *)

(** C4: the ranked list of a pass has at most ten entries, the first
    ten of the sorted candidates. *)
Theorem C4_at_most_ten (q : string) (site_index : binding index) (l : list entry) :
  ranked_list q site_index = Normal l ->
  (List.length l <= 10)%nat /\
  exists cands,
    candidates q site_index = Normal cands /\
    l = firstn 10 (sort compare_entries cands).
Proof.
  unfold ranked_list. destruct (candidates q site_index) as [cands| |]; try discriminate.
  intros H. injection H as <-.
  destruct cands as [|e cands].
  - split; [simpl; lia|]. now exists [].
  - cbn [List.length Nat.ltb Nat.leb]. split.
    + rewrite rank_length. apply Nat.le_min_l.
    + exists (e :: cands). split; [reflexivity | apply rank_eq].
Qed.

Lemma C4_at_most_ten_witness :
  ranked_list "a" (Some eleven) = Normal ranked_eleven /\
  (List.length ranked_eleven <= 10)%nat /\
  exists cands,
    candidates "a" (Some eleven) = Normal cands /\
    ranked_eleven = firstn 10 (sort compare_entries cands).
Proof.
  split; [reflexivity|].
  exact (C4_at_most_ten "a" (Some eleven) ranked_eleven eq_refl).
Defined.

(* ================================================================== *)
(** ** The selection cursor *)

(** C5 on [monsters]: the query "Go" is typed, ArrowDown moves the
    cursor to entry 0, and a click clears the results. [sel_idx] is
    still 0: it is not "none", and no ranked list is left for it to
    point into (the display is empty and the pass over the cleared
    query yields the empty list). The same happens when the next
    letter typed leaves no title matching. The cursor that is left
    over is used later: with [sel_idx] left at 2 by three ArrowDown on
    the results of "o", a click, and "Gob" pasted into the field, Enter
    reads entry 2 of a list of one entry and throws instead of opening
    "/goblin". *)
Theorem C5_cursor_outlives_list :
  sel_idx (run (loaded (Some monsters))
               [Edit "Go"; KeyUp "KeyO"; KeyUp "ArrowDown"; Click]) = 0%Z /\
  children (index_results
              (run (loaded (Some monsters))
                   [Edit "Go"; KeyUp "KeyO"; KeyUp "ArrowDown"; Click])) = None /\
  fst (search_pass
         (run (loaded (Some monsters))
              [Edit "Go"; KeyUp "KeyO"; KeyUp "ArrowDown"; Click])) = Normal [] /\
  sel_idx (run (loaded (Some monsters))
               [Edit "Go"; KeyUp "KeyO"; KeyUp "ArrowDown";
                Edit "Gox"; KeyUp "KeyX"]) = 0%Z /\
  fst (search_pass
         (run (loaded (Some monsters))
              [Edit "Go"; KeyUp "KeyO"; KeyUp "ArrowDown";
               Edit "Gox"; KeyUp "KeyX"])) = Normal [] /\
  sel_idx (run (loaded (Some monsters))
               [Edit "o"; KeyUp "KeyO"; KeyUp "ArrowDown"; KeyUp "ArrowDown";
                KeyUp "ArrowDown"; Click; Edit "Gob"]) = 2%Z /\
  option_map (@List.length entry)
    (match ranked_list "Gob" (Some monsters) with
     | Normal l => Some l
     | _ => None
     end) = Some 1%nat /\
  fst (search_index "Enter"
         (run (loaded (Some monsters))
              [Edit "o"; KeyUp "KeyO"; KeyUp "ArrowDown"; KeyUp "ArrowDown";
               KeyUp "ArrowDown"; Click; Edit "Gob"])) = Throw TypeError /\
  location (run (loaded (Some monsters))
                [Edit "o"; KeyUp "KeyO"; KeyUp "ArrowDown"; KeyUp "ArrowDown";
                 KeyUp "ArrowDown"; Click; Edit "Gob"; KeyUp "Enter"]) = [].
Proof. repeat split. Qed.

(** C7 on [monsters], with the cursor moved to entry 0 by ArrowDown:
    [sel_idx] is still 0, not -1, after a click clears the results,
    after the [/] key binding clears them, after Enter commits, and
    after a letter is typed that leaves no title matching. *)
Theorem C7_clear_keeps_cursor :
  sel_idx (run (loaded (Some monsters))
               [Edit "Go"; KeyUp "KeyO"; KeyUp "ArrowDown"; Click]) = 0%Z /\
  sel_idx (run (loaded (Some monsters))
               [Edit "Go"; KeyUp "KeyO"; KeyUp "ArrowDown"; Slash]) = 0%Z /\
  sel_idx (run (loaded (Some monsters))
               [Edit "Go"; KeyUp "KeyO"; KeyUp "ArrowDown"; KeyUp "Enter"]) = 0%Z /\
  sel_idx (run (loaded (Some monsters))
               [Edit "Go"; KeyUp "KeyO"; KeyUp "ArrowDown";
                Edit "Gox"; KeyUp "KeyX"]) = 0%Z.
Proof. repeat split. Qed.

(* ================================================================== *)
(** ** Enter *)

Lemma item_head {A : Type} (l : list A) : item l 0 = hd_error l.
Proof. now destruct l. Qed.

(** Enter on a ranked list, with the cursor none or on an entry of the
    list: the page is sent to the URL of the first entry when the
    cursor is none and to the URL of the entry under the cursor
    otherwise, once; the query is set to the empty string and the
    results are emptied and hidden; the cursor stays where it was. *)
Theorem enter_commits_inside_list (p : page) (l : list entry) :
  ranked_list (index_query p) (site_index p) = Normal l ->
  l <> [] ->
  sel_idx p = (-1)%Z \/ (0 <= sel_idx p < Z.of_nat (List.length l))%Z ->
  exists m,
    nth_error l (if (sel_idx p =? -1)%Z then 0%nat else Z.to_nat (sel_idx p)) = Some m /\
    search_index "Enter" p =
    (Normal tt, mkPage (site_index p) "" (mkContainer None false)
                       (sel_idx p) (url m :: location p)).
Proof.
  intros Hl Hne Hsel. rewrite search_index_eq, Hl.
  destruct l as [|e l]; [congruence|]. cbn [List.length Nat.ltb Nat.leb].
  unfold dispatch. cbn [String.eqb Ascii.eqb Bool.eqb].
  unfold bind at 1, get_sel_idx. cbv beta iota.
  destruct Hsel as [Hsel | Hsel].
  - assert (Hn : (sel_idx p =? -1)%Z = true) by (now apply Z.eqb_eq).
    rewrite Hn. exists e. split; reflexivity.
  - assert (Hn : (sel_idx p =? -1)%Z = false) by (apply Z.eqb_neq; lia).
    rewrite Hn.
    assert (Hlt : (Z.to_nat (sel_idx p) < List.length (e :: l))%nat) by lia.
    destruct (nth_error (e :: l) (Z.to_nat (sel_idx p))) as [m|] eqn:Hm;
      [|apply nth_error_None in Hm; lia].
    exists m. split; [reflexivity|].
    unfold bind at 1. unfold bind at 1. unfold item_of, item.
    assert (Hneg : (sel_idx p <? 0)%Z = false) by (apply Z.ltb_ge; lia).
    rewrite Hneg, Hm. reflexivity.
Qed.

Lemma enter_commits_inside_list_witness :
  ranked_list (index_query browsing) (site_index browsing) = Normal ranked_go /\
  ranked_go <> [] /\
  (sel_idx browsing = (-1)%Z \/
   (0 <= sel_idx browsing < Z.of_nat (List.length ranked_go))%Z) /\
  map url ranked_go = ["/goblin"; "/gorgon"; "/dragon"] /\
  sel_idx browsing = 1%Z /\
  exists m,
    nth_error ranked_go
      (if (sel_idx browsing =? -1)%Z then 0%nat else Z.to_nat (sel_idx browsing)) = Some m /\
    search_index "Enter" browsing =
    (Normal tt, mkPage (site_index browsing) "" (mkContainer None false)
                       (sel_idx browsing) (url m :: location browsing)).
Proof.
  assert (H1 : ranked_list (index_query browsing) (site_index browsing)
               = Normal ranked_go) by (vm_compute; reflexivity).
  assert (H2 : ranked_go <> []) by (unfold ranked_go; discriminate).
  assert (H3 : sel_idx browsing = (-1)%Z \/
               (0 <= sel_idx browsing < Z.of_nat (List.length ranked_go))%Z)
    by (right; vm_compute; split; [discriminate | reflexivity]).
  split; [exact H1|]. split; [exact H2|]. split; [exact H3|].
  split; [reflexivity|]. split; [reflexivity|].
  exact (enter_commits_inside_list browsing ranked_go H1 H2 H3).
Defined.

(** C6 on [monsters], with the cursor left at 2 by three ArrowDown on
    the results of "o" and the query then replaced by "Gob" with the
    mouse, no key released and no click on the document: the ranked
    list of "Gob" is not empty, it holds "Goblin" alone, and the cursor
    is not none. Enter reads entry 2 of the list, which is not there,
    and throws a TypeError on its [url]: the page is sent nowhere, the
    query is still "Gob" and the three results of "o" still show. The
    same happens after a click on the document and "Gob" pasted, where
    the results were hidden before. *)
Theorem C6_enter_with_stale_cursor :
  ranked_list (index_query replaced) (site_index replaced) = Normal ranked_gob /\
  map url ranked_gob = ["/goblin"] /\
  sel_idx replaced = 2%Z /\
  search_index "Enter" replaced = (Throw TypeError, replaced) /\
  location (step replaced (KeyUp "Enter")) = [] /\
  index_query (step replaced (KeyUp "Enter")) = "Gob" /\
  shown (index_results (step replaced (KeyUp "Enter"))) = true /\
  option_map (map (fun i => href (li_link i)))
    (children (index_results (step replaced (KeyUp "Enter")))) =
    Some ["/goblin"; "/gorgon"; "/dragon"] /\
  ranked_list (index_query pasted) (site_index pasted) = Normal ranked_gob /\
  sel_idx pasted = 2%Z /\
  search_index "Enter" pasted = (Throw TypeError, pasted) /\
  location (step pasted (KeyUp "Enter")) = [] /\
  index_query (step pasted (KeyUp "Enter")) = "Gob".
Proof. repeat split. Qed.

(* ================================================================== *)
(** ** No results *)

Lemma build_list_nil (lead partial : RegExp.regex) (q : string) (props : index) :
  (forall t, In t (map fst props) ->
             Number.gt (score_of lead partial q t) Number.zero = false) ->
  build_list lead partial q props = [].
Proof.
  intros H. destruct (build_list lead partial q props) as [|e l] eqn:E; [reflexivity|].
  assert (He : In (title e) (map title (build_list lead partial q props))).
  { rewrite E. now left. }
  apply title_in_build_list in He as [Hin Hs].
  rewrite (H _ Hin) in Hs. discriminate.
Qed.

(** C8, as stated, at a missing index: the pass throws instead of
    producing an empty list, a ReferenceError when no script declared
    [site_index] and a TypeError when it is declared and [undefined]
    or [null]; the handler ends there, leaving the page as it was,
    shown results included. *)
Lemma C8_missing_index_throws :
  candidates "" Undeclared = Throw ReferenceError /\
  fst (search_pass (loaded Undeclared)) = Throw ReferenceError /\
  search_index "Backspace" (loaded Undeclared) =
    (Throw ReferenceError, loaded Undeclared) /\
  search_index "Backspace"
    (mkPage Undeclared ""
            (mkContainer (Some [mkLi None (mkA "/goblin" "Goblin")]) true) (-1) []) =
  (Throw ReferenceError,
   mkPage Undeclared ""
          (mkContainer (Some [mkLi None (mkA "/goblin" "Goblin")]) true) (-1) []) /\
  candidates "" (Declared None) = Throw TypeError /\
  fst (search_pass (loaded (Declared None))) = Throw TypeError /\
  search_index "Backspace" (loaded (Declared None)) =
    (Throw TypeError, loaded (Declared None)) /\
  search_index "Backspace"
    (mkPage (Declared None) ""
            (mkContainer (Some [mkLi None (mkA "/goblin" "Goblin")]) true) (-1) []) =
  (Throw TypeError,
   mkPage (Declared None) ""
          (mkContainer (Some [mkLi None (mkA "/goblin" "Goblin")]) true) (-1) []).
Proof. repeat split. Qed.

(** C8, amended: with a query that has no character that means
    something in a pattern. When the index is there (empty or not) and
    the query is empty or contained in no title, the pass has no
    candidate and the handler, whatever key was released, empties and
    hides the results and changes nothing else. When the index is
    missing the pass throws, a ReferenceError when no script declared
    [site_index] and a TypeError when it is declared and [undefined] or
    [null], and the handler leaves the page as it was. *)
Theorem C8_no_results_hides (p : page) (code : string) :
  literal (index_query p) = true ->
  (forall props,
     site_index p = Some props ->
     (index_query p = "" \/
      forall t, In t (map fst props) -> Spec.contains_ci (index_query p) t = false) ->
     candidates (index_query p) (site_index p) = Normal [] /\
     search_index code p =
     (Normal tt, mkPage (site_index p) (index_query p) (mkContainer None false)
                        (sel_idx p) (location p))) /\
  (site_index p = Undeclared ->
   candidates (index_query p) (site_index p) = Throw ReferenceError /\
   search_index code p = (Throw ReferenceError, p)) /\
  (site_index p = Declared None ->
   candidates (index_query p) (site_index p) = Throw TypeError /\
   search_index code p = (Throw TypeError, p)).
Proof.
  intros Hq. split.
  - intros props Hidx Hnone.
    assert (Hc : candidates (index_query p) (site_index p) = Normal []).
    { rewrite Hidx, (candidates_literal _ _ Hq). f_equal.
      apply build_list_nil. intros t Ht.
      rewrite score_of_literal, literal_positive.
      destruct Hnone as [-> | Hnone]; [apply andb_false_r|].
      now rewrite (Hnone t Ht). }
    split; [exact Hc|].
    rewrite search_index_eq. unfold ranked_list. rewrite Hc. reflexivity.
  - split; intros Hidx.
    + assert (Hc : candidates (index_query p) (site_index p) = Throw ReferenceError).
      { unfold candidates.
        now rewrite (new_RegExp_lead_literal _ Hq), (new_RegExp_literal _ Hq), Hidx. }
      split; [exact Hc|].
      rewrite search_index_eq. unfold ranked_list. now rewrite Hc.
    + assert (Hc : candidates (index_query p) (site_index p) = Throw TypeError).
      { unfold candidates.
        now rewrite (new_RegExp_lead_literal _ Hq), (new_RegExp_literal _ Hq), Hidx. }
      split; [exact Hc|].
      rewrite search_index_eq. unfold ranked_list. now rewrite Hc.
Qed.

Lemma C8_no_results_hides_witness :
  literal (index_query stale) = true /\
  site_index stale = Some monsters /\
  (forall t, In t (map fst monsters) ->
             Spec.contains_ci (index_query stale) t = false) /\
  shown (index_results stale) = true /\
  candidates (index_query stale) (site_index stale) = Normal [] /\
  search_index "KeyX" stale =
  (Normal tt, mkPage (site_index stale) (index_query stale) (mkContainer None false)
                     (sel_idx stale) (location stale)).
Proof.
  assert (Hnone : forall t, In t (map fst monsters) ->
                            Spec.contains_ci (index_query stale) t = false).
  { intros t [<- | [<- | [<- | []]]]; reflexivity. }
  split; [reflexivity|]. split; [reflexivity|]. split; [exact Hnone|].
  split; [reflexivity|].
  exact (proj1 (C8_no_results_hides stale "KeyX" eq_refl)
               monsters eq_refl (or_intror Hnone)).
Defined.

(* ================================================================== *)
(** ** Determinism *)

(** C9: the ranked list a pass computes depends on the page through the
    query and the index alone, and the pass leaves the page as it was;
    so a second pass over the same query and an unchanged index gives
    the same entries in the same order. *)
Theorem C9_pass_deterministic (p1 p2 : page) :
  index_query p1 = index_query p2 ->
  site_index p1 = site_index p2 ->
  fst (search_pass p1) = fst (search_pass p2) /\
  snd (search_pass p1) = p1 /\
  search_pass (snd (search_pass p1)) = search_pass p1.
Proof.
  intros Hq Hi. rewrite !search_pass_eq. cbn [fst snd].
  rewrite Hq, Hi. auto.
Qed.

Lemma C9_pass_deterministic_witness :
  index_query browsing = index_query (step (loaded (Some monsters)) (Edit "Go")) /\
  site_index browsing = site_index (step (loaded (Some monsters)) (Edit "Go")) /\
  fst (search_pass browsing) = Normal ranked_go /\
  fst (search_pass browsing) =
    fst (search_pass (step (loaded (Some monsters)) (Edit "Go"))) /\
  snd (search_pass browsing) = browsing /\
  search_pass (snd (search_pass browsing)) = search_pass browsing.
Proof.
  split; [reflexivity|]. split; [reflexivity|].
  split; [vm_compute; reflexivity|].
  exact (C9_pass_deterministic browsing (step (loaded (Some monsters)) (Edit "Go"))
                               eq_refl eq_refl).
Defined.

(* ================================================================== *)
(** ** Rendering *)

Lemma nth_error_update_nth {A : Type} (f : A -> A) (k : nat) (l : list A) (i : nat) :
  nth_error (update_nth f k l) i =
  if (i =? k)%nat then option_map f (nth_error l i) else nth_error l i.
Proof.
  revert k i; induction l as [|x l IH]; intros k i.
  - destruct k, i; simpl; try reflexivity. now destruct (i =? k)%nat.
  - destruct k as [|k], i as [|i]; try reflexivity.
    cbn [update_nth nth_error]. rewrite IH. reflexivity.
Qed.

Lemma update_nth_length {A : Type} (f : A -> A) (k : nat) (l : list A) :
  List.length (update_nth f k l) = List.length l.
Proof.
  revert k; induction l as [|x l IH]; intros k; [now destruct k|].
  destruct k; simpl; [reflexivity | now rewrite IH].
Qed.

Lemma item_in_range {A : Type} (l : list A) (i : Z) :
  (0 <= i < Z.of_nat (List.length l))%Z -> exists a, item l i = Some a.
Proof.
  intros H. unfold item.
  destruct (i <? 0)%Z eqn:E; [apply Z.ltb_lt in E; lia|].
  destruct (nth_error l (Z.to_nat i)) as [a|] eqn:En; [now exists a|].
  apply nth_error_None in En. lia.
Qed.

(** C10: on a list whose entries carry no [selected] yet, as the pass
    builds them, [render_results] completes normally for every value of
    [sel_idx], also -1 and values outside the list: it shows one item
    per entry, in order, each with the link of its entry, and the item
    at position [i] has the class "selected" exactly when [i] is
    [sel_idx]; so with [sel_idx] outside [0, length) no item has it. *)
Theorem C10_render_marks_cursor (l : list entry) (p : page) :
  Forall (fun e => selected e = false) l ->
  exists items,
    render_results l p =
    (Normal tt, mkPage (site_index p) (index_query p) (mkContainer (Some items) true)
                       (sel_idx p) (location p)) /\
    List.length items = List.length l /\
    forall i m, nth_error l i = Some m ->
      nth_error items i =
      Some (mkLi (if (Z.of_nat i =? sel_idx p)%Z then Some "selected" else None)
                 (mkA (url m) (title m))).
Proof.
  intros Hfresh. unfold render_results, bind at 1, get_sel_idx.
  destruct ((sel_idx p >=? 0)%Z && (sel_idx p <? Z.of_nat (List.length l))%Z) eqn:G.
  - apply andb_true_iff in G as [G1 G2].
    apply Z.geb_le in G1. apply Z.ltb_lt in G2.
    destruct (item_in_range l (sel_idx p) (conj G1 G2)) as [a Ha].
    exists (map (fun m => render_item m (render_link m))
                (update_nth set_selected (Z.to_nat (sel_idx p)) l)).
    split; [|split].
    + unfold bind at 1. unfold bind at 1. unfold item_of. rewrite Ha. reflexivity.
    + now rewrite length_map, update_nth_length.
    + intros i m Hm. rewrite nth_error_map, nth_error_update_nth, Hm.
      rewrite Forall_forall in Hfresh.
      assert (Hs : selected m = false) by (apply Hfresh; eapply nth_error_In; eauto).
      destruct (i =? Z.to_nat (sel_idx p))%nat eqn:E.
      * apply Nat.eqb_eq in E.
        replace (Z.of_nat i =? sel_idx p)%Z with true
          by (symmetry; apply Z.eqb_eq; lia).
        reflexivity.
      * apply Nat.eqb_neq in E.
        replace (Z.of_nat i =? sel_idx p)%Z with false
          by (symmetry; apply Z.eqb_neq; lia).
        cbn [option_map]. unfold render_item, render_link. now rewrite Hs.
  - exists (map (fun m => render_item m (render_link m)) l).
    split; [reflexivity|]. split; [apply length_map|].
    intros i m Hm. rewrite nth_error_map, Hm.
    rewrite Forall_forall in Hfresh.
    assert (Hs : selected m = false) by (apply Hfresh; eapply nth_error_In; eauto).
    assert (Hi : (i < List.length l)%nat) by (apply nth_error_Some; congruence).
    replace (Z.of_nat i =? sel_idx p)%Z with false.
    + cbn [option_map]. unfold render_item, render_link. now rewrite Hs.
    + symmetry. apply Z.eqb_neq. intros Heq.
      apply andb_false_iff in G as [G | G].
      * rewrite Z.geb_leb in G. apply Z.leb_gt in G. lia.
      * apply Z.ltb_ge in G. lia.
Qed.

Lemma C10_render_marks_cursor_witness :
  Forall (fun e => selected e = false) ranked_go /\
  sel_idx browsing = 1%Z /\
  exists items,
    render_results ranked_go browsing =
    (Normal tt, mkPage (site_index browsing) (index_query browsing)
                       (mkContainer (Some items) true)
                       (sel_idx browsing) (location browsing)) /\
    List.length items = List.length ranked_go /\
    forall i m, nth_error ranked_go i = Some m ->
      nth_error items i =
      Some (mkLi (if (Z.of_nat i =? sel_idx browsing)%Z then Some "selected" else None)
                 (mkA (url m) (title m))).
Proof.
  assert (H : Forall (fun e => selected e = false) ranked_go)
    by (repeat constructor).
  split; [exact H|]. split; [reflexivity|].
  exact (C10_render_marks_cursor ranked_go browsing H).
Defined.

(* ================================================================== *)
(** ** The ranked list descends by score *)

Section SortedBy.

Context {A : Type}.
Variable cmp : A -> A -> Z.
Variable R : A -> A -> Prop.
Variable valid : A -> Prop.

Hypothesis cmp_keeps : forall x y,
  valid x -> valid y -> (cmp x y <=? 0)%Z = true -> R x y.
Hypothesis cmp_swaps : forall x y,
  valid x -> valid y -> (cmp x y <=? 0)%Z = false -> R y x.

Lemma insert_hd (y x : A) (l : list A) :
  R y x -> HdRel R y l -> HdRel R y (insert cmp x l).
Proof.
  intros Hyx Hl. destruct l as [|z l]; simpl.
  - now constructor.
  - destruct (cmp x z <=? 0)%Z; constructor; [exact Hyx|].
    now inversion Hl.
Qed.

Lemma insert_sorted (x : A) (l : list A) :
  valid x -> Forall valid l -> Sorted R l -> Sorted R (insert cmp x l).
Proof.
  intros Hx Hv Hs. induction Hs as [|y l Hs IH Hhd]; simpl.
  - repeat constructor.
  - inversion Hv as [|? ? Hy Hv']; subst.
    destruct (cmp x y <=? 0)%Z eqn:E.
    + constructor; [now constructor|]. constructor. now apply cmp_keeps.
    + constructor; [now apply IH|]. apply insert_hd; [|exact Hhd].
      now apply cmp_swaps.
Qed.

Lemma sort_sorted (l : list A) : Forall valid l -> Sorted R (sort cmp l).
Proof.
  induction l as [|x l IH]; intros Hv; simpl; [constructor|].
  inversion Hv as [|? ? Hx Hv']; subst.
  apply insert_sorted; [exact Hx | | now apply IH].
  apply Forall_forall. intros y Hy. rewrite Forall_forall in Hv'.
  now apply Hv', (sort_in cmp).
Qed.

Lemma firstn_sorted (n : nat) (l : list A) : Sorted R l -> Sorted R (firstn n l).
Proof.
  revert l; induction n as [|n IH]; intros l Hs; [constructor|].
  destruct l as [|x l]; [constructor|].
  inversion Hs as [|? ? Hs' Hhd]; subst. cbn [firstn].
  constructor; [now apply IH|].
  destruct l as [|y l]; [destruct n; constructor|].
  destruct n; [constructor|]. cbn [firstn]. constructor. now inversion Hhd.
Qed.

Lemma sorted_adjacent (l : list A) (i : nat) (a b : A) :
  Sorted R l -> nth_error l i = Some a -> nth_error l (S i) = Some b -> R a b.
Proof.
  intros Hs; revert i; induction Hs as [|x l Hs IH Hhd]; intros i Ha Hb.
  - now destruct i.
  - destruct i as [|i].
    + injection Ha as <-. destruct l as [|y l]; [discriminate|].
      injection Hb as <-. now inversion Hhd.
    + now apply (IH i).
Qed.

End SortedBy.

Lemma lt_false_ge (x y : Number.number) :
  Number.gt x Number.zero = true -> Number.gt y Number.zero = true ->
  Number.lt x y = false -> Number.ge x y = true.
Proof.
  destruct x as [a| |], y as [b| |];
    unfold Number.gt, Number.lt, Number.ge, Number.zero;
    try discriminate; try reflexivity.
  intros _ _ H. apply Qle_bool_iff. apply Qnot_lt_le. intros Hlt.
  apply Qlt_alt in Hlt. change ((a ?= b)%Q = Lt) in Hlt.
  rewrite Hlt in H. discriminate.
Qed.

Lemma lt_true_ge (x y : Number.number) :
  Number.lt x y = true -> Number.ge y x = true.
Proof.
  destruct x as [a| |], y as [b| |];
    unfold Number.lt, Number.ge; try discriminate; try reflexivity.
  intros H. apply Qle_bool_iff, Qlt_le_weak, Qlt_alt.
  now destruct (a ?= b)%Q.
Qed.

Lemma lt_asym (x y : Number.number) :
  Number.lt x y = true -> Number.lt y x = false.
Proof.
  destruct x as [a| |], y as [b| |];
    unfold Number.lt; try discriminate; try reflexivity.
  rewrite <- (Qcompare_antisym a b). now destruct (a ?= b)%Q.
Qed.

(** The comparison function keeps [a] before [b] exactly when the
    score of [a] is not the smaller one. *)
Lemma compare_entries_keeps (a b : entry) :
  (compare_entries a b <=? 0)%Z = negb (Number.lt (score a) (score b)).
Proof.
  rewrite compare_entries_score. unfold Number.gt.
  destruct (Number.lt (score b) (score a)) eqn:E.
  - now rewrite (lt_asym _ _ E).
  - now destruct (Number.lt (score a) (score b)).
Qed.

Lemma ranked_positive (q : string) (site_index : binding index) (l : list entry) :
  ranked_list q site_index = Normal l -> Forall positive l.
Proof.
  unfold ranked_list, candidates.
  destruct (RegExp.new_RegExp ("^" ++ q)%string) as [lead| |]; try discriminate.
  destruct (RegExp.new_RegExp q) as [partial| |]; try discriminate.
  destruct site_index as [|[props|]]; try discriminate.
  intros H. injection H as <-.
  pose proof (build_list_positive lead partial q props) as Hp.
  destruct (0 <? List.length _)%nat; [|exact Hp].
  apply Forall_forall. intros e He. rewrite Forall_forall in Hp.
  now apply Hp, rank_in.
Qed.

(** Of two adjacent entries of a ranked list, the earlier has a score
    greater than or equal to the later. *)
Theorem ranked_scores_descend
  (q : string) (site_index : binding index) (l : list entry) (i : nat) (a b : entry) :
  ranked_list q site_index = Normal l ->
  nth_error l i = Some a -> nth_error l (S i) = Some b ->
  Number.ge (score a) (score b) = true.
Proof.
  intros Hl. pose proof (ranked_positive _ _ _ Hl) as Hpos. revert Hl.
  unfold ranked_list.
  destruct (candidates q site_index) as [cands| |] eqn:Hc; try discriminate.
  intros H. injection H as <-.
  assert (Hcp : Forall positive cands).
  { unfold candidates in Hc.
    destruct (RegExp.new_RegExp ("^" ++ q)%string) as [lead| |]; try discriminate.
    destruct (RegExp.new_RegExp q) as [partial| |]; try discriminate.
    destruct site_index as [|[props|]]; try discriminate.
    injection Hc as <-. apply build_list_positive. }
  apply (sorted_adjacent (fun x y => Number.ge (score x) (score y) = true)).
  destruct (0 <? List.length cands)%nat eqn:E.
  - rewrite rank_eq. apply firstn_sorted.
    apply (sort_sorted compare_entries _ positive); [| |exact Hcp].
    + intros x y Hx Hy Hk. rewrite compare_entries_keeps in Hk.
      apply lt_false_ge; [exact Hx | exact Hy|].
      now destruct (Number.lt (score x) (score y)).
    + intros x y _ _ Hk. rewrite compare_entries_keeps in Hk.
      apply lt_true_ge. now destruct (Number.lt (score x) (score y)).
  - destruct cands; [constructor | discriminate].
Qed.

Lemma ranked_scores_descend_witness :
  ranked_list "a" (Some eleven) = Normal ranked_eleven /\
  nth_error ranked_eleven 3 =
    Some (mkEntry "abcd" "/4" (Number.times10 (Number.div 1 4)) String_prototype_toLowerCase false) /\
  nth_error ranked_eleven 4 =
    Some (mkEntry "ba" "/5" (Number.div 1 2) String_prototype_toLowerCase false) /\
  Number.ge (Number.times10 (Number.div 1 4)) (Number.div 1 2) = true.
Proof.
  split; [reflexivity|]. split; [reflexivity|]. split; [reflexivity|].
  exact (ranked_scores_descend "a" (Some eleven) ranked_eleven 3 _ _
                               eq_refl eq_refl eq_refl).
Defined.

(* ================================================================== *)
(** ** Key events on a ranked list that is not empty *)

(** [render_results] completes normally and writes the results
    container alone. *)
Lemma render_results_frame (l : list entry) (p : page) :
  exists c,
    render_results l p =
    (Normal tt, mkPage (site_index p) (index_query p) c (sel_idx p) (location p)).
Proof.
  unfold render_results, bind at 1, get_sel_idx.
  destruct ((sel_idx p >=? 0)%Z && (sel_idx p <? Z.of_nat (List.length l))%Z) eqn:G.
  - apply andb_true_iff in G as [G1 G2].
    apply Z.geb_le in G1. apply Z.ltb_lt in G2.
    destruct (item_in_range l (sel_idx p) (conj G1 G2)) as [a Ha].
    eexists. unfold bind at 1. unfold bind at 1. unfold item_of. rewrite Ha.
    reflexivity.
  - eexists. reflexivity.
Qed.

Lemma sel_idx_after_render (l : list entry) (p : page) :
  sel_idx (snd (render_results l p)) = sel_idx p.
Proof. destruct (render_results_frame l p) as [c ->]. reflexivity. Qed.

(** ArrowDown and ArrowUp on a ranked list that is not empty: a cursor
    that is none or inside the list ends inside the list, one entry
    further down (at most the last) or up (at least the first). *)
Theorem arrow_keeps_cursor_inside (p : page) (l : list entry) :
  ranked_list (index_query p) (site_index p) = Normal l ->
  l <> [] ->
  (sel_idx p = -1 \/ 0 <= sel_idx p < Z.of_nat (List.length l))%Z ->
  sel_idx (step p (KeyUp "ArrowDown")) =
    Z.min (sel_idx p + 1) (Z.of_nat (List.length l) - 1) /\
  sel_idx (step p (KeyUp "ArrowUp")) = Z.max (sel_idx p - 1) 0 /\
  (0 <= sel_idx (step p (KeyUp "ArrowDown")) < Z.of_nat (List.length l))%Z /\
  (0 <= sel_idx (step p (KeyUp "ArrowUp")) < Z.of_nat (List.length l))%Z.
Proof.
  intros Hl Hne Hsel.
  assert (Hlen : (0 <? List.length l)%nat = true).
  { destruct l; [congruence | reflexivity]. }
  assert (Hd : sel_idx (step p (KeyUp "ArrowDown")) =
               Z.min (sel_idx p + 1) (Z.of_nat (List.length l) - 1)).
  { unfold step, handler. rewrite search_index_eq, Hl, Hlen.
    unfold dispatch. cbn [String.eqb Ascii.eqb Bool.eqb].
    unfold bind at 1, get_sel_idx. cbv beta iota.
    unfold bind at 1, set_sel_idx. cbv beta iota.
    now rewrite sel_idx_after_render. }
  assert (Hu : sel_idx (step p (KeyUp "ArrowUp")) = Z.max (sel_idx p - 1) 0).
  { unfold step, handler. rewrite search_index_eq, Hl, Hlen.
    unfold dispatch. cbn [String.eqb Ascii.eqb Bool.eqb].
    unfold bind at 1, get_sel_idx. cbv beta iota.
    unfold bind at 1, set_sel_idx. cbv beta iota.
    now rewrite sel_idx_after_render. }
  apply Nat.ltb_lt in Hlen.
  rewrite Hd, Hu. repeat split; lia.
Qed.

Lemma arrow_keeps_cursor_inside_witness :
  ranked_list (index_query browsing) (site_index browsing) = Normal ranked_go /\
  ranked_go <> [] /\
  sel_idx browsing = 1%Z /\
  List.length ranked_go = 3%nat /\
  sel_idx (step browsing (KeyUp "ArrowDown")) =
    Z.min (sel_idx browsing + 1) (Z.of_nat (List.length ranked_go) - 1) /\
  sel_idx (step browsing (KeyUp "ArrowUp")) = Z.max (sel_idx browsing - 1) 0 /\
  (0 <= sel_idx (step browsing (KeyUp "ArrowDown")) < Z.of_nat (List.length ranked_go))%Z /\
  (0 <= sel_idx (step browsing (KeyUp "ArrowUp")) < Z.of_nat (List.length ranked_go))%Z.
Proof.
  assert (H1 : ranked_list (index_query browsing) (site_index browsing)
               = Normal ranked_go) by (vm_compute; reflexivity).
  assert (H2 : ranked_go <> []) by (unfold ranked_go; discriminate).
  assert (H3 : (sel_idx browsing = -1 \/
                0 <= sel_idx browsing < Z.of_nat (List.length ranked_go))%Z)
    by (right; vm_compute; split; [discriminate | reflexivity]).
  split; [exact H1|]. split; [exact H2|]. split; [reflexivity|]. split; [reflexivity|].
  exact (arrow_keeps_cursor_inside browsing ranked_go H1 H2 H3).
Defined.

(** A key other than ArrowDown, ArrowUp and Enter, released on a ranked
    list that is not empty, sets the cursor to none. *)
Theorem other_key_resets_cursor (p : page) (l : list entry) (code : string) :
  ranked_list (index_query p) (site_index p) = Normal l ->
  l <> [] ->
  code <> "ArrowDown" -> code <> "ArrowUp" -> code <> "Enter" ->
  sel_idx (step p (KeyUp code)) = (-1)%Z.
Proof.
  intros Hl Hne Hd Hu He.
  assert (Hlen : (0 <? List.length l)%nat = true).
  { destruct l; [congruence | reflexivity]. }
  apply String.eqb_neq in Hd, Hu, He.
  unfold step, handler. rewrite search_index_eq, Hl, Hlen.
  unfold dispatch. rewrite Hd, Hu, He.
  unfold bind at 1, set_sel_idx. cbv beta iota.
  now rewrite sel_idx_after_render.
Qed.

Lemma other_key_resets_cursor_witness :
  ranked_list (index_query browsing) (site_index browsing) = Normal ranked_go /\
  ranked_go <> [] /\
  sel_idx browsing = 1%Z /\
  sel_idx (step browsing (KeyUp "Escape")) = (-1)%Z.
Proof.
  assert (H1 : ranked_list (index_query browsing) (site_index browsing)
               = Normal ranked_go) by (vm_compute; reflexivity).
  assert (H2 : ranked_go <> []) by (unfold ranked_go; discriminate).
  split; [exact H1|]. split; [exact H2|]. split; [reflexivity|].
  apply (other_key_resets_cursor browsing ranked_go "Escape" H1 H2); discriminate.
Defined.

(** For a query without a character that means something in a pattern,
    every candidate carries the score the specification gives its
    title, and a title of the index is a candidate exactly when that
    score is positive. *)
Theorem plain_query_scores (q : string) (props : index) :
  literal q = true ->
  exists cands,
    candidates q (Some props) = Normal cands /\
    (forall e, In e cands -> score e = Spec.score q (title e)) /\
    (forall t, In t (map fst props) ->
       (In t (map title cands) <->
        Number.gt (Spec.score q t) Number.zero = true)).
Proof.
  intros Hq. eexists. split; [apply (candidates_literal q props Hq)|]. split.
  - intros e He. apply in_build_list in He as (t & u & _ & -> & _).
    apply score_of_literal.
  - intros t Ht. rewrite title_in_build_list, score_of_literal. tauto.
Qed.

Lemma plain_query_scores_witness :
  literal "on" = true /\
  Spec.score "on" "Dragon" = Number.div 2 6 /\
  Spec.score "on" "Goblin" = Number.zero /\
  exists cands,
    candidates "on" (Some monsters) = Normal cands /\
    (forall e, In e cands -> score e = Spec.score "on" (title e)) /\
    (forall t, In t (map fst monsters) ->
       (In t (map title cands) <->
        Number.gt (Spec.score "on" t) Number.zero = true)).
Proof.
  split; [reflexivity|]. split; [reflexivity|]. split; [reflexivity|].
  exact (plain_query_scores "on" monsters eq_refl).
Defined.

(* ================================================================== *)
(** ** Ties *)

Section Stable.

Context {A : Type}.
Variable cmp : A -> A -> Z.
Variable P : A -> bool.

(** Two elements picked by [P] are never swapped. *)
Hypothesis tied : forall x y, P x = true -> P y = true -> (cmp x y <=? 0)%Z = true.

Lemma insert_filter (x : A) (l : list A) :
  filter P (insert cmp x l) = filter P (x :: l).
Proof.
  induction l as [|y l IH]; [reflexivity|].
  cbn [insert]. destruct (cmp x y <=? 0)%Z eqn:E; [reflexivity|].
  cbn [filter] in *. rewrite IH.
  destruct (P x) eqn:Px, (P y) eqn:Py; try reflexivity.
  rewrite (tied x y Px Py) in E. discriminate.
Qed.

Lemma sort_filter (l : list A) : filter P (sort cmp l) = filter P l.
Proof.
  induction l as [|x l IH]; [reflexivity|].
  cbn [sort]. rewrite insert_filter. cbn [filter]. now rewrite IH.
Qed.

End Stable.

Lemma equal_scores_tie (s : Number.number) (a b : entry) :
  has_score s a = true -> has_score s b = true ->
  (compare_entries a b <=? 0)%Z = true.
Proof.
  unfold has_score. rewrite compare_entries_keeps. intros Ha Hb.
  destruct (score a) as [x| |], (score b) as [y| |], s as [z| |];
    try discriminate; try reflexivity.
  unfold Number.eq in Ha, Hb. apply Qeq_bool_iff in Ha, Hb.
  unfold Number.lt. destruct (x ?= y)%Q eqn:E; try reflexivity.
  apply Qlt_alt in E. rewrite Ha, Hb in E. now apply Qlt_irrefl in E.
Qed.

(** The sort leaves entries of one score in the order the index lists
    them: among the sorted candidates, those with a given score are the
    candidates with that score, in candidate order. *)
Theorem ties_keep_index_order (cands : list entry) (s : Number.number) :
  filter (has_score s) (sort compare_entries cands) = filter (has_score s) cands.
Proof. apply sort_filter, equal_scores_tie. Qed.

(* ================================================================== *)
(** ** Key events: what is shown, what is opened, what throws *)

Lemma ranked_fresh (q : string) (site_index : binding index) (l : list entry) :
  ranked_list q site_index = Normal l -> Forall (fun e => selected e = false) l.
Proof.
  unfold ranked_list, candidates.
  destruct (RegExp.new_RegExp ("^" ++ q)%string) as [lead| |]; try discriminate.
  destruct (RegExp.new_RegExp q) as [partial| |]; try discriminate.
  destruct site_index as [|[props|]]; try discriminate.
  intros H. injection H as <-.
  pose proof (build_list_fresh lead partial q props) as Hf.
  destruct (0 <? List.length _)%nat; [|exact Hf].
  apply Forall_forall. intros e He. rewrite Forall_forall in Hf.
  now apply Hf, rank_in.
Qed.

(** Every entry of a ranked list is a property of the index: its
    title is a key and its URL the value of that key. *)
Lemma ranked_from_index (q : string) (props : index) (l : list entry) (e : entry) :
  ranked_list q (Some props) = Normal l -> In e l -> In (title e, url e) props.
Proof.
  unfold ranked_list, candidates.
  destruct (RegExp.new_RegExp ("^" ++ q)%string) as [lead| |]; try discriminate.
  destruct (RegExp.new_RegExp q) as [partial| |]; try discriminate.
  intros H He. injection H as <-.
  assert (Hb : In e (build_list lead partial q props)).
  { destruct (0 <? List.length _)%nat; [now apply rank_in | exact He]. }
  now apply in_build_list in Hb as (t & u & Hin & -> & _).
Qed.

Lemma ranked_needs_index (q : string) (site_index : binding index) (l : list entry) :
  ranked_list q site_index = Normal l -> exists props, site_index = Some props.
Proof.
  unfold ranked_list, candidates.
  destruct (RegExp.new_RegExp ("^" ++ q)%string) as [lead| |]; try discriminate.
  destruct (RegExp.new_RegExp q) as [partial| |]; try discriminate.
  destruct site_index as [|[props|]]; try discriminate.
  intros _. now exists props.
Qed.

Lemma item_some_in {A : Type} (l : list A) (i : Z) (a : A) :
  item l i = Some a -> In a l.
Proof.
  unfold item. destruct (i <? 0)%Z; [discriminate|]. apply nth_error_In.
Qed.

(** What [dispatch] does on Enter, by cases on the cursor. *)
Lemma dispatch_enter (l : list entry) (p : page) :
  dispatch "Enter" l p =
  match item l (if (sel_idx p =? -1)%Z then 0%Z else sel_idx p) with
  | Some m =>
      (Normal tt, mkPage (site_index p) "" (mkContainer None false)
                         (sel_idx p) (url m :: location p))
  | None => (Throw TypeError, p)
  end.
Proof.
  unfold dispatch. cbn [String.eqb Ascii.eqb Bool.eqb].
  unfold bind at 1, get_sel_idx. cbv beta iota.
  destruct (sel_idx p =? -1)%Z.
  - unfold bind at 1. unfold bind at 1. unfold item_of.
    destruct (item l 0) as [m|]; reflexivity.
  - unfold bind at 1. unfold bind at 1. unfold item_of.
    destruct (item l (sel_idx p)) as [m|]; reflexivity.
Qed.

(** Enter with a cursor that points outside the ranked list (one left
    over from a longer list) throws a TypeError on [list[sel_idx]]: the
    page is not sent anywhere, the query stays and the results stay as
    they are. *)
Theorem enter_outside_list_throws (p : page) (l : list entry) :
  ranked_list (index_query p) (site_index p) = Normal l ->
  l <> [] ->
  sel_idx p <> (-1)%Z ->
  item l (sel_idx p) = None ->
  search_index "Enter" p = (Throw TypeError, p) /\ step p (KeyUp "Enter") = p.
Proof.
  intros Hl Hne Hsel Hitem.
  assert (H : search_index "Enter" p = (Throw TypeError, p)).
  { rewrite search_index_eq, Hl.
    destruct l as [|e l]; [congruence|]. cbn [List.length Nat.ltb Nat.leb].
    rewrite dispatch_enter. apply Z.eqb_neq in Hsel. now rewrite Hsel, Hitem. }
  split; [exact H|]. unfold step, handler. now rewrite H.
Qed.

Lemma enter_outside_list_throws_witness :
  ranked_list (index_query pasted) (site_index pasted) = Normal ranked_gob /\
  ranked_gob <> [] /\
  sel_idx pasted = 2%Z /\
  List.length ranked_gob = 1%nat /\
  search_index "Enter" pasted = (Throw TypeError, pasted) /\
  step pasted (KeyUp "Enter") = pasted.
Proof.
  assert (H1 : ranked_list (index_query pasted) (site_index pasted)
               = Normal ranked_gob) by (vm_compute; reflexivity).
  assert (H2 : ranked_gob <> []) by (unfold ranked_gob; discriminate).
  assert (H3 : sel_idx pasted <> (-1)%Z) by (vm_compute; discriminate).
  split; [exact H1|]. split; [exact H2|]. split; [reflexivity|]. split; [reflexivity|].
  exact (enter_outside_list_throws pasted ranked_gob H1 H2 H3 eq_refl).
Defined.

Lemma location_after_render (l : list entry) (p : page) :
  location (snd (render_results l p)) = location p.
Proof. destruct (render_results_frame l p) as [c ->]. reflexivity. Qed.

(** A released key sends the page somewhere only when it is Enter, and
    then to the URL the index gives for one of its titles, once; no
    other key calls [window.location.assign]. *)
Theorem only_enter_opens_a_page (p : page) (code : string) :
  ranked_list (index_query p) (site_index p) <> Unsupported ->
  location (step p (KeyUp code)) = location p \/
  (code = "Enter" /\
   exists props t u,
     site_index p = Some props /\ In (t, u) props /\
     location (step p (KeyUp code)) = u :: location p).
Proof.
  intros Hm. unfold step, handler. rewrite search_index_eq.
  destruct (ranked_list (index_query p) (site_index p)) as [l| |] eqn:Hl;
    [|now left|congruence].
  destruct (0 <? List.length l)%nat; [|now left].
  unfold dispatch.
  destruct (String.eqb code "ArrowDown").
  { left. unfold bind at 1, get_sel_idx. cbv beta iota.
    unfold bind at 1, set_sel_idx. cbv beta iota.
    now rewrite location_after_render. }
  destruct (String.eqb code "ArrowUp").
  { left. unfold bind at 1, get_sel_idx. cbv beta iota.
    unfold bind at 1, set_sel_idx. cbv beta iota.
    now rewrite location_after_render. }
  destruct (String.eqb code "Enter") eqn:Ec.
  - apply String.eqb_eq in Ec. subst code.
    pose proof (dispatch_enter l p) as Hd. unfold dispatch in Hd.
    cbn [String.eqb Ascii.eqb Bool.eqb] in Hd. rewrite Hd.
    destruct (item l (if (sel_idx p =? -1)%Z then 0%Z else sel_idx p)) as [m|] eqn:Hi;
      [|now left].
    right. split; [reflexivity|].
    destruct (ranked_needs_index _ _ _ Hl) as [props Hp].
    exists props, (title m), (url m). split; [exact Hp|]. split; [|reflexivity].
    rewrite Hp in Hl. eapply ranked_from_index; [exact Hl|].
    eapply item_some_in; exact Hi.
  - left. unfold bind at 1, set_sel_idx. cbv beta iota.
    now rewrite location_after_render.
Qed.

Lemma only_enter_opens_a_page_witness :
  ranked_list (index_query browsing) (site_index browsing) <> Unsupported /\
  location (step browsing (KeyUp "ArrowUp")) = [] /\
  location (step browsing (KeyUp "Enter")) = ["/gorgon"] /\
  (location (step browsing (KeyUp "Enter")) = location browsing \/
   ("Enter" = "Enter" /\
    exists props t u,
      site_index browsing = Some props /\ In (t, u) props /\
      location (step browsing (KeyUp "Enter")) = u :: location browsing)).
Proof.
  assert (H : ranked_list (index_query browsing) (site_index browsing) <> Unsupported)
    by (vm_compute; discriminate).
  split; [exact H|]. split; [reflexivity|]. split; [reflexivity|].
  exact (only_enter_opens_a_page browsing "Enter" H).
Defined.

(** A query that starts with a quantifier or a closing parenthesis is
    not a pattern: [new RegExp] throws a SyntaxError whatever follows
    and whatever key was released, before the handler writes anything,
    so the results of the query before stay on the page. *)
Theorem misplaced_operator_throws (p : page) (code : string) (c : ascii) (rest : string) :
  index_query p = String c rest ->
  In c ["*"; "+"; "?"; ")"]%char ->
  search_index code p = (Throw SyntaxError, p) /\ step p (KeyUp code) = p.
Proof.
  intros Hq Hc.
  assert (H : search_index code p = (Throw SyntaxError, p)).
  { unfold search_index, bind at 1, getValue. cbv beta iota. rewrite Hq.
    unfold bind at 1, lift.
    replace (RegExp.new_RegExp ("^" ++ String c rest)%string)
      with (@Throw RegExp.regex SyntaxError); [reflexivity|].
    unfold RegExp.new_RegExp.
    change (list_ascii_of_string ("^" ++ String c rest)%string)
      with ("^"%char :: c :: list_ascii_of_string rest).
    destruct Hc as [<- | [<- | [<- | [<- | []]]]]; reflexivity. }
  split; [exact H|]. unfold step, handler. now rewrite H.
Qed.

Lemma misplaced_operator_throws_witness :
  index_query asking = String "?" "" /\
  In "?"%char ["*"; "+"; "?"; ")"]%char /\
  shown (index_results asking) = true /\
  search_index "Slash" asking = (Throw SyntaxError, asking) /\
  step asking (KeyUp "Slash") = asking.
Proof.
  assert (H : In "?"%char ["*"; "+"; "?"; ")"]%char) by (right; right; now left).
  split; [reflexivity|]. split; [exact H|]. split; [reflexivity|].
  exact (misplaced_operator_throws asking "Slash" "?" "" eq_refl H).
Defined.

(* ================================================================== *)
(** ** What a key leaves on the page *)

Lemma render_results_eq (l : list entry) (p : page) :
  render_results l p =
  (Normal tt,
   mkPage (site_index p) (index_query p)
          (mkContainer (Some (map (fun m => render_item m (render_link m))
                                  (drawn (sel_idx p) l))) true)
          (sel_idx p) (location p)).
Proof.
  unfold render_results, drawn, bind at 1, get_sel_idx. cbv beta iota.
  destruct ((sel_idx p >=? 0)%Z && (sel_idx p <? Z.of_nat (List.length l))%Z) eqn:G;
    [|reflexivity].
  apply andb_true_iff in G as [G1 G2].
  apply Z.geb_le in G1. apply Z.ltb_lt in G2.
  destruct (item_in_range l (sel_idx p) (conj G1 G2)) as [a Ha].
  unfold bind at 1. unfold bind at 1. unfold item_of. now rewrite Ha.
Qed.

Lemma drawn_length (sel : Z) (l : list entry) :
  List.length (drawn sel l) = List.length l.
Proof.
  unfold drawn. destruct (_ && _); [apply update_nth_length | reflexivity].
Qed.

Lemma drawn_nth (sel : Z) (l : list entry) (i : nat) (m : entry) :
  selected m = false ->
  nth_error l i = Some m ->
  option_map (fun m => render_item m (render_link m)) (nth_error (drawn sel l) i) =
  Some (mkLi (if (Z.of_nat i =? sel)%Z then Some "selected" else None)
             (mkA (url m) (title m))).
Proof.
  intros Hs Hm.
  assert (Hi : (i < List.length l)%nat) by (apply nth_error_Some; congruence).
  unfold drawn.
  destruct ((sel >=? 0)%Z && (sel <? Z.of_nat (List.length l))%Z) eqn:G.
  - apply andb_true_iff in G as [G1 G2].
    apply Z.geb_le in G1. apply Z.ltb_lt in G2.
    rewrite nth_error_update_nth, Hm.
    destruct (i =? Z.to_nat sel)%nat eqn:E.
    + apply Nat.eqb_eq in E.
      replace (Z.of_nat i =? sel)%Z with true by (symmetry; apply Z.eqb_eq; lia).
      reflexivity.
    + apply Nat.eqb_neq in E.
      replace (Z.of_nat i =? sel)%Z with false by (symmetry; apply Z.eqb_neq; lia).
      cbn [option_map]. unfold render_item, render_link. now rewrite Hs.
  - rewrite Hm. cbn [option_map]. unfold render_item, render_link. rewrite Hs.
    replace (Z.of_nat i =? sel)%Z with false; [reflexivity|].
    symmetry. apply Z.eqb_neq. intros Heq.
    apply andb_false_iff in G as [G | G].
    + rewrite Z.geb_leb in G. apply Z.leb_gt in G. lia.
    + apply Z.ltb_ge in G. lia.
Qed.

(** A key other than Enter on a ranked list that is not empty: the
    cursor moves as the key says and the list is drawn. *)
Lemma step_draws (p : page) (l : list entry) (code : string) :
  ranked_list (index_query p) (site_index p) = Normal l ->
  l <> [] ->
  code <> "Enter" ->
  step p (KeyUp code) =
  mkPage (site_index p) (index_query p)
         (mkContainer
            (Some (map (fun m => render_item m (render_link m))
                       (drawn (moved code (List.length l) (sel_idx p)) l))) true)
         (moved code (List.length l) (sel_idx p)) (location p).
Proof.
  intros Hl Hne He.
  assert (Hlen : (0 <? List.length l)%nat = true).
  { destruct l; [congruence | reflexivity]. }
  apply String.eqb_neq in He.
  unfold step, handler. rewrite search_index_eq, Hl, Hlen.
  unfold dispatch, moved.
  destruct (String.eqb code "ArrowDown").
  { unfold bind at 1, get_sel_idx. cbv beta iota.
    unfold bind at 1, set_sel_idx. cbv beta iota.
    now rewrite render_results_eq. }
  destruct (String.eqb code "ArrowUp").
  { unfold bind at 1, get_sel_idx. cbv beta iota.
    unfold bind at 1, set_sel_idx. cbv beta iota.
    now rewrite render_results_eq. }
  rewrite He. unfold bind at 1, set_sel_idx. cbv beta iota.
  now rewrite render_results_eq.
Qed.

(** After a key other than Enter is released on a ranked list that is
    not empty, the results are shown and hold one item per entry of the
    ranked list, in its order, each a link with the title as text and
    the URL as target; the item under the new cursor, and no other, has
    the class "selected". The query, the index and the browsing history
    are as before. *)
Theorem key_shows_ranked_list (p : page) (l : list entry) (code : string) :
  ranked_list (index_query p) (site_index p) = Normal l ->
  l <> [] ->
  code <> "Enter" ->
  index_query (step p (KeyUp code)) = index_query p /\
  site_index (step p (KeyUp code)) = site_index p /\
  location (step p (KeyUp code)) = location p /\
  shown (index_results (step p (KeyUp code))) = true /\
  exists items,
    children (index_results (step p (KeyUp code))) = Some items /\
    List.length items = List.length l /\
    forall i m, nth_error l i = Some m ->
      nth_error items i =
      Some (mkLi (if (Z.of_nat i =? sel_idx (step p (KeyUp code)))%Z
                  then Some "selected" else None)
                 (mkA (url m) (title m))).
Proof.
  intros Hl Hne He. rewrite (step_draws p l code Hl Hne He). cbn [index_query
    site_index location shown index_results children sel_idx].
  repeat (split; [reflexivity|]).
  eexists. split; [reflexivity|]. split.
  - now rewrite length_map, drawn_length.
  - intros i m Hm. rewrite nth_error_map. apply drawn_nth; [|exact Hm].
    pose proof (ranked_fresh _ _ _ Hl) as Hf. rewrite Forall_forall in Hf.
    apply Hf. eapply nth_error_In; eauto.
Qed.

Lemma key_shows_ranked_list_witness :
  ranked_list (index_query browsing) (site_index browsing) = Normal ranked_go /\
  ranked_go <> [] /\
  "ArrowUp" <> "Enter" /\
  sel_idx (step browsing (KeyUp "ArrowUp")) = 0%Z /\
  children (index_results (step browsing (KeyUp "ArrowUp"))) =
    Some [mkLi (Some "selected") (mkA "/goblin" "Goblin");
          mkLi None (mkA "/gorgon" "Gorgon");
          mkLi None (mkA "/dragon" "Dragon")] /\
  index_query (step browsing (KeyUp "ArrowUp")) = index_query browsing /\
  site_index (step browsing (KeyUp "ArrowUp")) = site_index browsing /\
  location (step browsing (KeyUp "ArrowUp")) = location browsing /\
  shown (index_results (step browsing (KeyUp "ArrowUp"))) = true /\
  exists items,
    children (index_results (step browsing (KeyUp "ArrowUp"))) = Some items /\
    List.length items = List.length ranked_go /\
    forall i m, nth_error ranked_go i = Some m ->
      nth_error items i =
      Some (mkLi (if (Z.of_nat i =? sel_idx (step browsing (KeyUp "ArrowUp")))%Z
                  then Some "selected" else None)
                 (mkA (url m) (title m))).
Proof.
  assert (H1 : ranked_list (index_query browsing) (site_index browsing)
               = Normal ranked_go) by (vm_compute; reflexivity).
  assert (H2 : ranked_go <> []) by (unfold ranked_go; discriminate).
  assert (H3 : "ArrowUp" <> "Enter") by discriminate.
  split; [exact H1|]. split; [exact H2|]. split; [exact H3|].
  split; [vm_compute; reflexivity|]. split; [vm_compute; reflexivity|].
  exact (key_shows_ranked_list browsing ranked_go "ArrowUp" H1 H2 H3).
Defined.

(* ================================================================== *)
(** ** Holding an arrow key *)

Lemma run_cons (p : page) (e : event) (es : list event) :
  run p (e :: es) = run (step p e) es.
Proof. reflexivity. Qed.

Lemma step_keeps_ranked (p : page) (l : list entry) (code : string) :
  ranked_list (index_query p) (site_index p) = Normal l ->
  l <> [] ->
  code <> "Enter" ->
  ranked_list (index_query (step p (KeyUp code))) (site_index (step p (KeyUp code)))
  = Normal l.
Proof.
  intros Hl Hne He. now rewrite (step_draws p l code Hl Hne He).
Qed.

Lemma arrow_down_again (l : list entry) (n : nat) :
  l <> [] ->
  forall p,
    ranked_list (index_query p) (site_index p) = Normal l ->
    sel_idx (run p (List.repeat (KeyUp "ArrowDown") (S n))) =
    Z.min (sel_idx p + Z.of_nat (S n)) (Z.of_nat (List.length l) - 1).
Proof.
  intros Hne. assert (Hd : "ArrowDown" <> "Enter") by discriminate.
  induction n as [|n IH]; intros p Hl.
  - cbn [List.repeat]. rewrite run_cons. cbn [run fold_left].
    rewrite (step_draws p l _ Hl Hne Hd). reflexivity.
  - change (List.repeat (KeyUp "ArrowDown") (S (S n)))
      with (KeyUp "ArrowDown" :: List.repeat (KeyUp "ArrowDown") (S n)).
    rewrite run_cons, (IH _ (step_keeps_ranked p l _ Hl Hne Hd)).
    rewrite (step_draws p l _ Hl Hne Hd). cbn [sel_idx]. unfold moved.
    cbn [String.eqb Ascii.eqb Bool.eqb]. lia.
Qed.

Lemma arrow_up_again (l : list entry) (n : nat) :
  l <> [] ->
  forall p,
    ranked_list (index_query p) (site_index p) = Normal l ->
    sel_idx (run p (List.repeat (KeyUp "ArrowUp") (S n))) =
    Z.max (sel_idx p - Z.of_nat (S n)) 0.
Proof.
  intros Hne. assert (Hu : "ArrowUp" <> "Enter") by discriminate.
  induction n as [|n IH]; intros p Hl.
  - cbn [List.repeat]. rewrite run_cons. cbn [run fold_left].
    rewrite (step_draws p l _ Hl Hne Hu). reflexivity.
  - change (List.repeat (KeyUp "ArrowUp") (S (S n)))
      with (KeyUp "ArrowUp" :: List.repeat (KeyUp "ArrowUp") (S n)).
    rewrite run_cons, (IH _ (step_keeps_ranked p l _ Hl Hne Hu)).
    rewrite (step_draws p l _ Hl Hne Hu). cbn [sel_idx]. unfold moved.
    cbn [String.eqb Ascii.eqb Bool.eqb]. lia.
Qed.

(** An arrow key released [n] times in a row, [n] at least 1, on a
    ranked list of [len] entries that is not empty, from any cursor
    [c]: ArrowDown leaves the cursor at min(c + n, len - 1), so from
    "none" it stops at the last entry; ArrowUp leaves it at
    max(c - n, 0), so it stops at the first entry, and a cursor that
    was beyond the list comes down one entry per key. *)
Theorem arrow_key_repeated (p : page) (l : list entry) (n : nat) :
  ranked_list (index_query p) (site_index p) = Normal l ->
  l <> [] ->
  sel_idx (run p (List.repeat (KeyUp "ArrowDown") (S n))) =
    Z.min (sel_idx p + Z.of_nat (S n)) (Z.of_nat (List.length l) - 1) /\
  sel_idx (run p (List.repeat (KeyUp "ArrowUp") (S n))) =
    Z.max (sel_idx p - Z.of_nat (S n)) 0.
Proof.
  intros Hl Hne. split.
  - exact (arrow_down_again l n Hne p Hl).
  - exact (arrow_up_again l n Hne p Hl).
Qed.

Lemma arrow_key_repeated_witness :
  ranked_list (index_query typed_go) (site_index typed_go) = Normal ranked_two /\
  ranked_two <> [] /\
  List.length ranked_two = 2%nat /\
  sel_idx typed_go = (-1)%Z /\
  sel_idx (run typed_go [KeyUp "ArrowDown"; KeyUp "ArrowDown"; KeyUp "ArrowDown"]) = 1%Z /\
  sel_idx (run typed_go (List.repeat (KeyUp "ArrowDown") 3)) =
    Z.min (sel_idx typed_go + Z.of_nat 3) (Z.of_nat (List.length ranked_two) - 1) /\
  sel_idx (run typed_go (List.repeat (KeyUp "ArrowUp") 3)) =
    Z.max (sel_idx typed_go - Z.of_nat 3) 0.
Proof.
  assert (H1 : ranked_list (index_query typed_go) (site_index typed_go)
               = Normal ranked_two) by (vm_compute; reflexivity).
  assert (H2 : ranked_two <> []) by (unfold ranked_two; discriminate).
  split; [exact H1|]. split; [exact H2|]. split; [reflexivity|]. split; [reflexivity|].
  split; [vm_compute; reflexivity|].
  exact (arrow_key_repeated typed_go ranked_two 2 H1 H2).
Defined.

(* ================================================================== *)
(** ** A key released twice *)

Lemma drawn_none (l : list entry) : drawn (-1) l = l.
Proof. reflexivity. Qed.

(** Releasing a key other than ArrowDown, ArrowUp and Enter a second
    time, with the query unchanged, changes nothing: the handler draws
    the same results, hides the same empty results or throws the same
    error again. *)
Theorem plain_key_twice (p : page) (code : string) :
  ranked_list (index_query p) (site_index p) <> Unsupported ->
  code <> "ArrowDown" -> code <> "ArrowUp" -> code <> "Enter" ->
  step (step p (KeyUp code)) (KeyUp code) = step p (KeyUp code).
Proof.
  intros Hm Hd Hu He.
  destruct (ranked_list (index_query p) (site_index p)) as [l| |] eqn:Hl;
    [| |congruence].
  - destruct l as [|e l].
    + assert (H : step p (KeyUp code) =
                  mkPage (site_index p) (index_query p) (mkContainer None false)
                         (sel_idx p) (location p)).
      { unfold step, handler. now rewrite search_index_eq, Hl. }
      rewrite H. unfold step at 1, handler.
      rewrite search_index_eq. cbn [index_query site_index]. now rewrite Hl.
    + assert (Hne : e :: l <> []) by discriminate.
      rewrite (step_draws (step p (KeyUp code)) (e :: l) code
                 (step_keeps_ranked p _ code Hl Hne He) Hne He).
      rewrite (step_draws p (e :: l) code Hl Hne He).
      cbn [site_index index_query sel_idx location].
      unfold moved. apply String.eqb_neq in Hd, Hu. now rewrite Hd, Hu.
  - assert (H : step p (KeyUp code) = p).
    { unfold step, handler. now rewrite search_index_eq, Hl. }
    now rewrite !H.
Qed.

Lemma plain_key_twice_witness :
  ranked_list (index_query browsing) (site_index browsing) <> Unsupported /\
  "Escape" <> "ArrowDown" /\ "Escape" <> "ArrowUp" /\ "Escape" <> "Enter" /\
  step browsing (KeyUp "Escape") <> browsing /\
  step (step browsing (KeyUp "Escape")) (KeyUp "Escape") = step browsing (KeyUp "Escape").
Proof.
  assert (H : ranked_list (index_query browsing) (site_index browsing) <> Unsupported)
    by (vm_compute; discriminate).
  assert (Hd : "Escape" <> "ArrowDown") by discriminate.
  assert (Hu : "Escape" <> "ArrowUp") by discriminate.
  assert (He : "Escape" <> "Enter") by discriminate.
  split; [exact H|]. split; [exact Hd|]. split; [exact Hu|]. split; [exact He|].
  split; [vm_compute; discriminate|].
  exact (plain_key_twice browsing "Escape" H Hd Hu He).
Defined.

(* ================================================================== *)
(** ** The vault *)

Lemma own_get_set_same (k : string) (v : Cookie.value) (o : list (string * Cookie.value)) :
  Cookie.own_get k (Cookie.own_set k v o) = Some v.
Proof.
  unfold Cookie.own_set. destruct (Cookie.own_get k o) as [w|] eqn:G.
  - revert G. induction o as [|[k' v'] o IH]; simpl; [discriminate|].
    destruct (String.eqb k k') eqn:E; simpl; rewrite E; auto.
  - revert G. induction o as [|[k' v'] o IH]; simpl.
    + now rewrite String.eqb_refl.
    + destruct (String.eqb k k') eqn:E; [discriminate|]. intros G.
      destruct (Cookie.listed_before k k'); simpl.
      * now rewrite String.eqb_refl.
      * rewrite E. auto.
Qed.

Lemma own_get_set_other (k k' : string) (v : Cookie.value)
  (o : list (string * Cookie.value)) :
  k' <> k ->
  Cookie.own_get k' (Cookie.own_set k v o) = Cookie.own_get k' o.
Proof.
  intros Hk. apply String.eqb_neq in Hk.
  unfold Cookie.own_set. destruct (Cookie.own_get k o) as [w|].
  - induction o as [|[k0 v0] o IH]; simpl; [reflexivity|].
    destruct (String.eqb k k0) eqn:E; simpl.
    + apply String.eqb_eq in E. subst k0. now rewrite Hk.
    + now rewrite IH.
  - induction o as [|[k0 v0] o IH]; simpl.
    + now rewrite Hk.
    + destruct (Cookie.listed_before k k0); simpl.
      * now rewrite Hk.
      * now rewrite IH.
Qed.

Lemma own_get_delete_same (k : string) (o : list (string * Cookie.value)) :
  Cookie.own_get k (Cookie.own_delete k o) = None.
Proof.
  induction o as [|[k' v'] o IH]; simpl; [reflexivity|].
  destruct (String.eqb k k') eqn:E; simpl; [exact IH | now rewrite E].
Qed.

Lemma own_get_delete_other (k k' : string) (o : list (string * Cookie.value)) :
  k' <> k ->
  Cookie.own_get k' (Cookie.own_delete k o) = Cookie.own_get k' o.
Proof.
  intros Hk. induction o as [|[k0 v0] o IH]; simpl; [reflexivity|].
  destruct (String.eqb k k0) eqn:E; simpl.
  - apply String.eqb_eq in E. subst k0.
    apply String.eqb_neq in Hk. now rewrite Hk.
  - now rewrite IH.
Qed.

Lemma prop_set_same (k : string) (v : Cookie.value) (o : list (string * Cookie.value)) :
  Cookie.prop (Cookie.own_set k v o) k = v.
Proof. unfold Cookie.prop. now rewrite own_get_set_same. Qed.

Lemma prop_set_other (k k' : string) (v : Cookie.value)
  (o : list (string * Cookie.value)) :
  k' <> k -> Cookie.prop (Cookie.own_set k v o) k' = Cookie.prop o k'.
Proof. intros Hk. unfold Cookie.prop. now rewrite own_get_set_other. Qed.

Lemma given_key (k : string) : k <> "" -> Cookie.given (Some k) = Some k.
Proof. intros Hk. unfold Cookie.given. apply String.eqb_neq in Hk. now rewrite Hk. Qed.

Section VaultFacts.

Variable B : Cookie.builtins.

(** [set_cookie] puts the value into the vault before anything else:
    whatever the options are, the vault holds the value under the key
    afterwards and its other own properties are as before. So
    [get_cookie] of the key returns the value when the key is not
    empty; for the empty key [get_cookie] returns the whole vault, in
    which "" then holds the value. [get_cookie] of any other key that
    is not empty returns what it did before. With an options object
    the call completes and assigns [document.cookie] once; without one
    it throws a TypeError on [opts[step.key]], with the vault already
    changed and [document.cookie] not assigned. *)
Theorem set_then_get (key : string) (v : Cookie.value) (opts : option Cookie.options)
  (j : Cookie.jar) :
  key <> "__proto__" ->
  Cookie.own_get key (Cookie.vault (snd (Cookie.set_cookie B key v opts j))) = Some v /\
  (forall other, other <> key ->
     Cookie.own_get other (Cookie.vault (snd (Cookie.set_cookie B key v opts j))) =
     Cookie.own_get other (Cookie.vault j)) /\
  Cookie.get_cookie (snd (Cookie.set_cookie B key v opts j)) (Some key) =
    (if String.eqb key ""
     then Cookie.VObj (Cookie.vault (snd (Cookie.set_cookie B key v opts j)))
     else v) /\
  (forall other, other <> key -> other <> "" ->
     Cookie.get_cookie (snd (Cookie.set_cookie B key v opts j)) (Some other) =
     Cookie.get_cookie j (Some other)) /\
  match opts with
  | Some _ =>
      fst (Cookie.set_cookie B key v opts j) = Cookie.Ok tt /\
      exists text,
        Cookie.document_cookie (snd (Cookie.set_cookie B key v opts j)) =
        text :: Cookie.document_cookie j
  | None =>
      fst (Cookie.set_cookie B key v opts j) = Cookie.Raise (Cookie.Js TypeError) /\
      Cookie.document_cookie (snd (Cookie.set_cookie B key v opts j)) =
      Cookie.document_cookie j
  end.
Proof.
  intros Hp.
  assert (Hv : Cookie.vault (snd (Cookie.set_cookie B key v opts j)) =
               Cookie.own_set key v (Cookie.vault j)).
  { unfold Cookie.set_cookie. apply String.eqb_neq in Hp. rewrite Hp.
    now destruct opts. }
  split; [rewrite Hv; apply own_get_set_same|].
  split; [intros other Ho; rewrite Hv; now apply own_get_set_other|].
  split.
  - unfold Cookie.get_cookie, Cookie.given. rewrite Hv.
    destruct (String.eqb key ""); [reflexivity | apply prop_set_same].
  - split.
    + intros other Ho Hne. unfold Cookie.get_cookie.
      rewrite (given_key other Hne), Hv. now apply prop_set_other.
    + unfold Cookie.set_cookie. apply String.eqb_neq in Hp. rewrite Hp.
      destruct opts as [o|]; cbn [fst snd Cookie.vault Cookie.document_cookie].
      * split; [reflexivity|]. eexists. reflexivity.
      * split; reflexivity.
Qed.

End VaultFacts.

Lemma set_then_get_witness :
  "" <> "__proto__" /\
  Cookie.get_cookie
    (snd (Cookie.set_cookie sample_builtins "" (Cookie.VStr "x") None
            (Cookie.mkJar [("dark_mode", Cookie.VNum 1)] [])))
    (Some "") = Cookie.VObj [("dark_mode", Cookie.VNum 1); ("", Cookie.VStr "x")] /\
  Cookie.get_cookie
    (snd (Cookie.set_cookie sample_builtins "nav" (Cookie.VStr "x") None
            (Cookie.mkJar [("dark_mode", Cookie.VNum 1)] [])))
    (Some "nav") = Cookie.VStr "x" /\
  Cookie.get_cookie
    (snd (Cookie.set_cookie sample_builtins "nav" (Cookie.VStr "x") None
            (Cookie.mkJar [("dark_mode", Cookie.VNum 1)] [])))
    (Some "dark_mode") = Cookie.VNum 1 /\
  fst (Cookie.set_cookie sample_builtins "nav" (Cookie.VStr "x") None
         (Cookie.mkJar [("dark_mode", Cookie.VNum 1)] []))
    = Cookie.Raise (Cookie.Js TypeError) /\
  Cookie.document_cookie
    (snd (Cookie.set_cookie sample_builtins "nav" (Cookie.VStr "x") None
            (Cookie.mkJar [("dark_mode", Cookie.VNum 1)] []))) = [].
Proof.
  assert (H0 : "" <> "__proto__") by discriminate.
  assert (H1 : "nav" <> "__proto__") by discriminate.
  assert (H2 : "dark_mode" <> "nav") by discriminate.
  assert (H3 : "dark_mode" <> "") by discriminate.
  pose proof (set_then_get sample_builtins "" (Cookie.VStr "x") None
                (Cookie.mkJar [("dark_mode", Cookie.VNum 1)] []) H0)
    as (_ & _ & E & _).
  pose proof (set_then_get sample_builtins "nav" (Cookie.VStr "x") None
                (Cookie.mkJar [("dark_mode", Cookie.VNum 1)] []) H1)
    as (_ & _ & G & O & T & D).
  split; [exact H0|]. split; [exact E|]. split; [exact G|].
  split; [exact (O "dark_mode" H2 H3)|]. split; [exact T | exact D].
Defined.

(* ================================================================== *)
(** ** What is written to [document.cookie] *)

Lemma given_not_empty (o : option string) (s : string) :
  Cookie.given o = Some s -> s <> "".
Proof.
  unfold Cookie.given. destruct o as [t|]; [|discriminate].
  destruct (String.eqb t "") eqn:E; [discriminate|].
  intros H. injection H as <-. now apply String.eqb_neq.
Qed.

Section Written.

Variable B : Cookie.builtins.

(** The attributes of a write: an expiry when the options have one,
    then always a domain, a path and [secure], from the options when
    they give one that is not empty (or true), from the defaults
    otherwise. *)
Lemma attributes_shape (o : Cookie.options) :
  exists attrs d p,
    Cookie.attributes B o =
    attrs ++ [("domain=" ++ d)%string; ("path=" ++ p)%string; "secure"] /\
    d <> "" /\ p <> "" /\
    attrs = match Cookie.expires o with
            | Some e => [Cookie.expires_attribute B e]
            | None => []
            end /\
    d = match Cookie.given (Cookie.domain o) with Some d => d | None => ".bin.sh" end /\
    p = match Cookie.given (Cookie.path o) with Some p => p | None => "/" end.
Proof.
  unfold Cookie.attributes. cbn [Cookie.expires Cookie.domain Cookie.path Cookie.secure
    Cookie.default_opts Cookie.given String.eqb Ascii.eqb Bool.eqb].
  do 3 eexists. split; [|split; [|split; [|split; [reflexivity|split; reflexivity]]]].
  - destruct (Cookie.expires o), (Cookie.given (Cookie.domain o)),
      (Cookie.given (Cookie.path o)), (Cookie.secure o); reflexivity.
  - destruct (Cookie.given (Cookie.domain o)) eqn:E; [|discriminate].
    now apply given_not_empty in E.
  - destruct (Cookie.given (Cookie.path o)) eqn:E; [|discriminate].
    now apply given_not_empty in E.
Qed.

Lemma set_cookie_writes (key : string) (v : Cookie.value) (opts : option Cookie.options)
  (j : Cookie.jar) :
  Cookie.document_cookie (snd (Cookie.set_cookie B key v opts j)) = Cookie.document_cookie j \/
  exists text,
    Cookie.attributed text /\
    Cookie.document_cookie (snd (Cookie.set_cookie B key v opts j)) =
    text :: Cookie.document_cookie j.
Proof.
  unfold Cookie.set_cookie. destruct (String.eqb key "__proto__"); [now left|].
  destruct opts as [o|]; [|now left]. right.
  destruct (attributes_shape o) as (attrs & d & p & Ha & Hd & Hp & _).
  eexists. split; [|reflexivity]. rewrite Ha.
  now exists (key ++ "=" ++ Cookie.cookie_value B v)%string, attrs, d, p.
Qed.

Lemma call_writes (c : Cookie.call) (j : Cookie.jar) :
  Cookie.document_cookie (snd (Cookie.call_on B c j)) = Cookie.document_cookie j \/
  exists text,
    Cookie.attributed text /\
    Cookie.document_cookie (snd (Cookie.call_on B c j)) =
    text :: Cookie.document_cookie j.
Proof.
  destruct c as [key v opts | key v opts | key chip v opts | key opts];
    cbn [Cookie.call_on].
  - apply set_cookie_writes.
  - apply set_cookie_writes.
  - unfold Cookie.set_cookie_chip.
    destruct (if Cookie.truthy (Cookie.prop (Cookie.vault j) key)
              then Cookie.prop (Cookie.vault j) key else Cookie.VObj []);
      try apply set_cookie_writes; [|now left].
    destruct (String.eqb chip "__proto__"); [now left | apply set_cookie_writes].
  - unfold Cookie.delete_cookie.
    destruct (Cookie.truthy (Cookie.prop (Cookie.vault j) key)); [|now left].
    apply (set_cookie_writes key (Cookie.VStr "") _
             (Cookie.mkJar (Cookie.own_delete key (Cookie.vault j))
                           (Cookie.document_cookie j))).
Qed.

(** Whatever other scripts call, in any order and with any options,
    every text the cookie functions assign to [document.cookie] names
    a domain and a path that are not empty and ends in [secure]: an
    option that is false, empty or missing falls back to the default,
    so no caller can write a cookie without them. *)
Theorem writes_keep_attributes (calls : list Cookie.call) (j : Cookie.jar) :
  Forall Cookie.attributed (Cookie.document_cookie j) ->
  Forall Cookie.attributed (Cookie.document_cookie (Cookie.after B j calls)).
Proof.
  revert j; induction calls as [|c calls IH]; intros j Hj; [exact Hj|].
  unfold Cookie.after. cbn [fold_left]. apply IH.
  destruct (call_writes c j) as [-> | (text & Ht & ->)]; [exact Hj|].
  now constructor.
Qed.

End Written.

Lemma writes_keep_attributes_witness :
  Forall Cookie.attributed (Cookie.document_cookie Cookie.empty_jar) /\
  Cookie.document_cookie
    (Cookie.after sample_builtins Cookie.empty_jar
       [Cookie.SetCookie "k" (Cookie.VStr "a b")
          (Some (Cookie.mkOptions None (Some "") None false))]) =
    ["k=a%20b; domain=.bin.sh; path=/; secure"] /\
  Forall Cookie.attributed
    (Cookie.document_cookie
       (Cookie.after sample_builtins Cookie.empty_jar
          [Cookie.SetCookie "k" (Cookie.VStr "a b")
             (Some (Cookie.mkOptions None (Some "") None false))])).
Proof.
  assert (H : Forall Cookie.attributed (Cookie.document_cookie Cookie.empty_jar))
    by constructor.
  split; [exact H|]. split; [reflexivity|].
  exact (writes_keep_attributes sample_builtins
           [Cookie.SetCookie "k" (Cookie.VStr "a b")
              (Some (Cookie.mkOptions None (Some "") None false))]
           Cookie.empty_jar H).
Defined.

(* ================================================================== *)
(** ** Deleting a cookie and setting a chip *)

Section DeleteAndChip.

Variable B : Cookie.builtins.



(** On a key that holds a string that is not empty or a number that is
    not 0, [set_cookie_chip] sets the chip on a primitive, which does
    nothing: the chip is lost, and the value itself is written back
    with the expiry [never]. *)
Theorem chip_on_primitive_is_lost (key chip : string) (v : Cookie.value)
  (opts : option Cookie.options) (j : Cookie.jar) :
  key <> "__proto__" ->
  Cookie.truthy (Cookie.prop (Cookie.vault j) key) = true ->
  (forall chips, Cookie.prop (Cookie.vault j) key <> Cookie.VObj chips) ->
  (forall name, Cookie.prop (Cookie.vault j) key <> Cookie.VBuiltin name) ->
  fst (Cookie.set_cookie_chip B key chip v opts j) = Cookie.Ok tt /\
  Cookie.prop (Cookie.vault (snd (Cookie.set_cookie_chip B key chip v opts j))) key =
    Cookie.prop (Cookie.vault j) key.
Proof.
  intros Hk Ht Ho Hb. apply String.eqb_neq in Hk.
  unfold Cookie.set_cookie_chip. rewrite Ht.
  destruct (Cookie.prop (Cookie.vault j) key) as [|s|n|chips|name] eqn:E.
  - discriminate.
  - unfold Cookie.persistent_cookie, Cookie.set_cookie. rewrite Hk.
    cbn [fst snd Cookie.vault]. split; [reflexivity | apply prop_set_same].
  - unfold Cookie.persistent_cookie, Cookie.set_cookie. rewrite Hk.
    cbn [fst snd Cookie.vault]. split; [reflexivity | apply prop_set_same].
  - now contradiction (Ho chips).
  - now contradiction (Hb name).
Qed.

End DeleteAndChip.



Lemma chip_on_primitive_is_lost_witness :
  "dark_mode" <> "__proto__" /\
  Cookie.prop (Cookie.vault dark_jar) "dark_mode" = Cookie.VNum 1 /\
  fst (Cookie.set_cookie_chip sample_builtins "dark_mode" "x" (Cookie.VStr "y") None
         dark_jar) = Cookie.Ok tt /\
  Cookie.prop
    (Cookie.vault
       (snd (Cookie.set_cookie_chip sample_builtins "dark_mode" "x" (Cookie.VStr "y")
               None dark_jar))) "dark_mode" =
    Cookie.prop (Cookie.vault dark_jar) "dark_mode".
Proof.
  assert (H : "dark_mode" <> "__proto__") by discriminate.
  split; [exact H|]. split; [reflexivity|].
  apply (chip_on_primitive_is_lost sample_builtins "dark_mode" "x" (Cookie.VStr "y")
           None dark_jar H eq_refl); intros x Hx; discriminate Hx.
Defined.

(* ================================================================== *)
(** ** Strings as lists of code units *)

Lemma list_of_append (a b : string) :
  list_ascii_of_string (a ++ b)%string =
  list_ascii_of_string a ++ list_ascii_of_string b.
Proof. induction a as [|c a IH]; simpl; [reflexivity | now rewrite IH]. Qed.

Lemma list_of_concat (sep : string) (l : list string) :
  list_ascii_of_string (String.concat sep l) =
  Cookie.join_units (list_ascii_of_string sep) (map list_ascii_of_string l).
Proof.
  induction l as [|x l IH]; [reflexivity|].
  destruct l as [|y l]; [reflexivity|].
  change (String.concat sep (x :: y :: l))
    with (x ++ sep ++ String.concat sep (y :: l))%string.
  rewrite !list_of_append, IH. reflexivity.
Qed.

(* ================================================================== *)
(** ** Splitting what was joined *)

Section Split.

Variable c0 : ascii.
Variable sep' : list ascii.

Let sep : list ascii := c0 :: sep'.

Lemma prefixb_app (a b : list ascii) : Spec.prefixb a (a ++ b) = true.
Proof. apply prefixb_spec. now exists b. Qed.

Lemma prefixb_other_head (x : ascii) (s : list ascii) :
  x <> c0 -> Spec.prefixb sep (x :: s) = false.
Proof.
  intros Hx. unfold sep. cbn [Spec.prefixb].
  replace (Ascii.eqb c0 x) with false; [reflexivity|].
  symmetry. apply Ascii.eqb_neq. congruence.
Qed.

Lemma split_skip (x more acc : list ascii) :
  Cookie.split_go sep (List.length x) acc (x ++ more) = Cookie.split_go sep 0 acc more.
Proof.
  induction x as [|a x IH]; [reflexivity|]. exact IH.
Qed.

(** A piece without the first unit of the separator is read to its
    end. *)
Lemma split_last (piece acc : list ascii) :
  ~ In c0 piece ->
  Cookie.split_go sep 0 acc piece = [rev acc ++ piece].
Proof.
  revert acc; induction piece as [|x piece IH]; intros acc Hn.
  - cbn [Cookie.split_go]. now rewrite app_nil_r.
  - cbn [Cookie.split_go]. rewrite prefixb_other_head.
    + rewrite IH; [|intros H; apply Hn; now right].
      cbn [rev]. now rewrite <- app_assoc.
    + intros ->. apply Hn. now left.
Qed.

(** A piece without the first unit of the separator, then the
    separator: the piece is cut off and the rest split. *)
Lemma split_piece (piece more acc : list ascii) :
  ~ In c0 piece ->
  Cookie.split_go sep 0 acc (piece ++ sep ++ more) =
  (rev acc ++ piece) :: Cookie.split_go sep 0 [] more.
Proof.
  revert acc; induction piece as [|x piece IH]; intros acc Hn.
  - cbn [app]. unfold sep at 2. cbn [app Cookie.split_go].
    replace (Spec.prefixb sep (c0 :: sep' ++ more)) with true
      by (symmetry; apply (prefixb_app sep more)).
    rewrite app_nil_r. f_equal.
    replace (List.length sep - 1)%nat with (List.length sep')
      by (unfold sep; cbn [List.length]; lia).
    apply split_skip.
  - cbn [app Cookie.split_go]. rewrite prefixb_other_head.
    + rewrite IH; [|intros H; apply Hn; now right].
      cbn [rev]. now rewrite <- app_assoc.
    + intros ->. apply Hn. now left.
Qed.

Lemma split_joined (pieces : list (list ascii)) :
  pieces <> [] ->
  Forall (fun piece => ~ In c0 piece) pieces ->
  Cookie.split_go sep 0 [] (Cookie.join_units sep pieces) = pieces.
Proof.
  induction pieces as [|x pieces IH]; intros Hne Hf; [congruence|].
  inversion Hf as [|? ? Hx Hrest]; subst.
  destruct pieces as [|y pieces].
  - cbn [Cookie.join_units]. now rewrite split_last.
  - change (Cookie.join_units sep (x :: y :: pieces))
      with (x ++ sep ++ Cookie.join_units sep (y :: pieces)).
    rewrite split_piece by exact Hx. cbn [rev app]. f_equal.
    apply IH; [discriminate | exact Hrest].
Qed.

End Split.

(* ================================================================== *)
(** ** Encoding and decoding a component *)

Lemma encode_unit_plain (c : ascii) :
  forallb Cookie.plain (Cookie.encode_unit c) = true.
Proof. destruct c as [[] [] [] [] [] [] [] []]; reflexivity. Qed.

Lemma decode_encode_unit (c : ascii) (rest : list ascii) :
  Cookie.decode (Cookie.encode_unit c ++ rest) = Cookie.cons_ok c (Cookie.decode rest).
Proof. destruct c as [[] [] [] [] [] [] [] []]; reflexivity. Qed.

Lemma decode_encode (l : list ascii) :
  Cookie.decode (flat_map Cookie.encode_unit l) = Cookie.Ok l.
Proof.
  induction l as [|c l IH]; [reflexivity|].
  cbn [flat_map]. now rewrite decode_encode_unit, IH.
Qed.

(** [decodeURIComponent(encodeURIComponent(s))] is [s]. *)
Lemma decode_encoded (s : string) :
  Cookie.decodeURIComponent (Cookie.encodeURIComponent s) = Cookie.Ok s.
Proof.
  unfold Cookie.decodeURIComponent, Cookie.encodeURIComponent.
  now rewrite list_ascii_of_string_of_list_ascii, decode_encode,
    string_of_list_ascii_of_string.
Qed.

Lemma encoded_plain (s : string) :
  forallb Cookie.plain (list_ascii_of_string (Cookie.encodeURIComponent s)) = true.
Proof.
  unfold Cookie.encodeURIComponent. rewrite list_ascii_of_string_of_list_ascii.
  induction (list_ascii_of_string s) as [|c l IH]; [reflexivity|].
  cbn [flat_map]. now rewrite forallb_app, encode_unit_plain, IH.
Qed.

Lemma decode_json_tag (s : string) :
  Cookie.decodeURIComponent ("json:" ++ Cookie.encodeURIComponent s)%string =
  Cookie.Ok ("json:" ++ s)%string.
Proof.
  pose proof (decode_encoded s) as H. unfold Cookie.decodeURIComponent in *.
  cbn [list_ascii_of_string append Cookie.decode].
  destruct (Cookie.decode (list_ascii_of_string (Cookie.encodeURIComponent s)));
    try discriminate.
  injection H as <-. reflexivity.
Qed.

Lemma until_line_end_all (l : list ascii) :
  forallb (fun c => negb (CodeUnit.is_line_terminator c)) l = true ->
  Cookie.until_line_end l = l.
Proof.
  induction l as [|c l IH]; [reflexivity|]. cbn [forallb Cookie.until_line_end].
  intros H. apply andb_true_iff in H as [Hc Hl].
  apply negb_true_iff in Hc. now rewrite Hc, IH.
Qed.

Lemma json_payload_tagged (t : string) :
  t <> "" -> Cookie.one_line t = true ->
  Cookie.json_payload ("json:" ++ t)%string = Some t.
Proof.
  intros Hne Hl. unfold Cookie.json_payload, Cookie.one_line in *.
  destruct t as [|c t]; [congruence|].
  cbn [list_ascii_of_string append forallb] in *.
  apply andb_true_iff in Hl as [Hc Hl]. apply negb_true_iff in Hc. rewrite Hc.
  rewrite (until_line_end_all _ Hl).
  change (c :: list_ascii_of_string t) with (list_ascii_of_string (String c t)).
  now rewrite string_of_list_ascii_of_string.
Qed.

Lemma plain_not_in (c : ascii) (l : list ascii) :
  (c = ";"%char \/ c = "="%char) -> forallb Cookie.plain l = true -> ~ In c l.
Proof.
  intros Hc Hl Hin. rewrite forallb_forall in Hl. specialize (Hl c Hin).
  unfold Cookie.plain in Hl. destruct Hc as [-> | ->]; discriminate.
Qed.

Section Load.

Variable B : Cookie.builtins.

Lemma cookie_value_plain (v : Cookie.value) :
  forallb Cookie.plain (list_ascii_of_string (Cookie.cookie_value B v)) = true.
Proof.
  destruct v; cbn [Cookie.cookie_value]; try apply encoded_plain;
    rewrite list_of_append, forallb_app, encoded_plain; reflexivity.
Qed.

Lemma split_written (kv : string * Cookie.value) :
  Cookie.clean (fst kv) = true ->
  Cookie.split "=" (Cookie.written B kv) = [fst kv; Cookie.cookie_value B (snd kv)].
Proof.
  intros Hk. unfold Cookie.split, Cookie.written.
  rewrite list_of_append.
  change (list_ascii_of_string ("=" ++ Cookie.cookie_value B (snd kv))%string)
    with (["="%char] ++ list_ascii_of_string (Cookie.cookie_value B (snd kv))).
  change (list_ascii_of_string "=") with ["="%char].
  assert (H : Cookie.split_go ["="%char] 0 []
                (Cookie.join_units ["="%char]
                   [list_ascii_of_string (fst kv);
                    list_ascii_of_string (Cookie.cookie_value B (snd kv))]) =
              [list_ascii_of_string (fst kv);
               list_ascii_of_string (Cookie.cookie_value B (snd kv))]).
  { apply (split_joined "="%char []); [discriminate|].
    repeat constructor.
    - apply plain_not_in; [now right | exact Hk].
    - apply plain_not_in; [now right | apply cookie_value_plain]. }
  cbn [Cookie.join_units] in H. rewrite H.
  cbn [map]. now rewrite !string_of_list_ascii_of_string.
Qed.

(** One cookie that is readable is read back as it was written. *)
Lemma load_one_written (kv : string * Cookie.value) (j : Cookie.jar) :
  Cookie.readable B kv ->
  Cookie.load_one B (Cookie.written B kv) j =
  (Cookie.Ok tt,
   Cookie.mkJar (Cookie.own_set (fst kv) (snd kv) (Cookie.vault j))
                (Cookie.document_cookie j)).
Proof.
  intros (Hk & Hp & Hv). unfold Cookie.load_one.
  rewrite (split_written kv Hk). cbn [hd nth_error].
  apply String.eqb_neq in Hp.
  destruct (snd kv) as [|s|n|chips|name] eqn:Ev; try contradiction.
  - cbn [Cookie.cookie_value]. rewrite decode_encoded, Hv, Hp. reflexivity.
  - destruct Hv as (Hne & Hl & Hparse). cbn [Cookie.cookie_value].
    rewrite decode_json_tag, (json_payload_tagged _ Hne Hl), Hparse, Hp. reflexivity.
  - destruct Hv as (Hne & Hl & Hparse). cbn [Cookie.cookie_value].
    rewrite decode_json_tag, (json_payload_tagged _ Hne Hl), Hparse, Hp. reflexivity.
Qed.

Lemma load_all_written (cookies : list (string * Cookie.value)) (j : Cookie.jar) :
  Forall (Cookie.readable B) cookies ->
  Cookie.load_all B (map (Cookie.written B) cookies) j =
  (Cookie.Ok tt,
   Cookie.mkJar
     (fold_left (fun o kv => Cookie.own_set (fst kv) (snd kv) o) cookies (Cookie.vault j))
     (Cookie.document_cookie j)).
Proof.
  revert j; induction cookies as [|kv cookies IH]; intros j Hf.
  - now destruct j.
  - inversion Hf as [|? ? Hkv Hrest]; subst.
    cbn [map Cookie.load_all]. rewrite (load_one_written kv j Hkv).
    rewrite (IH _ Hrest). reflexivity.
Qed.

Lemma written_no_semicolon (kv : string * Cookie.value) :
  Cookie.clean (fst kv) = true ->
  ~ In ";"%char (list_ascii_of_string (Cookie.written B kv)).
Proof.
  intros Hk. unfold Cookie.written. rewrite !list_of_append.
  intros Hin. apply in_app_or in Hin as [Hin | Hin].
  - revert Hin. apply plain_not_in; [now left | exact Hk].
  - apply in_app_or in Hin as [Hin | Hin].
    + destruct Hin as [Hin | []]. discriminate.
    + revert Hin. apply plain_not_in; [now left | apply cookie_value_plain].
Qed.

(** What [set_cookie] writes, [load_cookies] reads back. When
    [document.cookie] reads as the [key=value] texts that [set_cookie]
    wrote for some cookies, one after the other with "; " between
    them, and each is readable (a key without [;] and [=]; a string
    that does not start with "json:" and more on the same line; or a
    number or object that JSON round-trips on one line), then
    [load_cookies] completes and puts exactly these values under these
    keys into the vault, a later cookie of a key replacing an
    earlier. *)
Theorem load_reads_back (cookies : list (string * Cookie.value)) (j : Cookie.jar) :
  cookies <> [] ->
  Forall (Cookie.readable B) cookies ->
  Cookie.load_cookies B (String.concat "; " (map (Cookie.written B) cookies)) j =
  (Cookie.Ok tt,
   Cookie.mkJar
     (fold_left (fun o kv => Cookie.own_set (fst kv) (snd kv) o) cookies (Cookie.vault j))
     (Cookie.document_cookie j)).
Proof.
  intros Hne Hf. unfold Cookie.load_cookies.
  replace (Cookie.split "; " (String.concat "; " (map (Cookie.written B) cookies)))
    with (map (Cookie.written B) cookies); [now apply load_all_written|].
  unfold Cookie.split. rewrite list_of_concat.
  change (list_ascii_of_string "; ") with (";"%char :: [" "%char]).
  rewrite (split_joined ";"%char [" "%char]).
  - rewrite map_map. rewrite <- (map_id (map (Cookie.written B) cookies)) at 1.
    apply map_ext. intros s. now rewrite string_of_list_ascii_of_string.
  - destruct cookies; [congruence | discriminate].
  - rewrite Forall_map, Forall_map. rewrite Forall_forall in *.
    intros kv Hkv. apply written_no_semicolon. now destruct (Hf kv Hkv).
Qed.

End Load.

Lemma load_reads_back_witness :
  [("dark_mode", Cookie.VNum 1); ("note", Cookie.VStr "a b;=c")] <> [] /\
  Forall (Cookie.readable sample_builtins)
    [("dark_mode", Cookie.VNum 1); ("note", Cookie.VStr "a b;=c")] /\
  String.concat "; "
    (map (Cookie.written sample_builtins)
       [("dark_mode", Cookie.VNum 1); ("note", Cookie.VStr "a b;=c")]) =
    "dark_mode=json:1; note=a%20b%3B%3Dc" /\
  Cookie.load_cookies sample_builtins
    (String.concat "; "
       (map (Cookie.written sample_builtins)
          [("dark_mode", Cookie.VNum 1); ("note", Cookie.VStr "a b;=c")]))
    Cookie.empty_jar =
  (Cookie.Ok tt,
   Cookie.mkJar
     (fold_left (fun o kv => Cookie.own_set (fst kv) (snd kv) o)
        [("dark_mode", Cookie.VNum 1); ("note", Cookie.VStr "a b;=c")]
        (Cookie.vault Cookie.empty_jar))
     (Cookie.document_cookie Cookie.empty_jar)).
Proof.
  assert (H1 : [("dark_mode", Cookie.VNum 1); ("note", Cookie.VStr "a b;=c")] <> [])
    by discriminate.
  assert (H2 : Forall (Cookie.readable sample_builtins)
                 [("dark_mode", Cookie.VNum 1); ("note", Cookie.VStr "a b;=c")]).
  { constructor; [|constructor; [|constructor]].
    - split; [reflexivity|]. split; [discriminate|].
      split; [discriminate|]. split; reflexivity.
    - split; [reflexivity|]. split; [discriminate | reflexivity]. }
  split; [exact H1|]. split; [exact H2|]. split; [reflexivity|].
  exact (load_reads_back sample_builtins _ Cookie.empty_jar H1 H2).
Defined.

(* ================================================================== *)
(** ** What [load_cookies] makes of other texts *)

Section LoadEdges.

Variable B : Cookie.builtins.






End LoadEdges.



(* ================================================================== *)
(** ** Dark mode and its cookie *)

Section DarkModeFacts.

Variable B : Cookie.builtins.

Let dark (j : Cookie.jar) : bool :=
  Cookie.truthy (Cookie.get_cookie j (Some "dark_mode")).

Lemma toggle_once (s : DarkMode.ui * Cookie.jar) :
  fst (DarkMode.toggle_dark_mode B s) = Cookie.Ok tt /\
  dark (snd (snd (DarkMode.toggle_dark_mode B s))) = negb (dark (snd s)) /\
  DarkMode.body_dark (fst (snd (DarkMode.toggle_dark_mode B s))) = negb (dark (snd s)) /\
  DarkMode.button (fst (snd (DarkMode.toggle_dark_mode B s))) =
    DarkMode.label (if dark (snd s) then "Dark Mode" else "Undark Mode")
                   (DarkMode.button (fst s)).
Proof.
  unfold dark, DarkMode.toggle_dark_mode.
  destruct (Cookie.truthy (Cookie.get_cookie (snd s) (Some "dark_mode"))) eqn:E;
    cbn [fst snd].
  - unfold Cookie.delete_cookie. unfold Cookie.get_cookie in E at 1.
    cbn [Cookie.given String.eqb Ascii.eqb Bool.eqb] in E. rewrite E.
    unfold Cookie.set_cookie, Cookie.get_cookie.
    cbn [String.eqb Ascii.eqb Bool.eqb fst snd Cookie.vault Cookie.given].
    rewrite prop_set_same. repeat split.
  - unfold Cookie.persistent_cookie, Cookie.set_cookie, Cookie.get_cookie.
    cbn [String.eqb Ascii.eqb Bool.eqb fst snd Cookie.vault Cookie.given].
    rewrite prop_set_same. repeat split.
Qed.

Lemma label_label (a b : string) (x : option string) :
  DarkMode.label a (DarkMode.label b x) = DarkMode.label a x.
Proof. now destruct x. Qed.

(** After the button has been clicked any number of times, at least
    once, whatever the page and the vault were before: the body has the
    class [dark_mode] exactly when [get_cookie('dark_mode')] is truthy,
    the button, if the page has one, reads "Undark Mode" exactly then
    and "Dark Mode" otherwise, and each click has flipped the cookie
    between truthy and falsy, so two clicks bring all three back. No
    click throws. *)
Theorem dark_mode_follows_cookie (n : nat) (s : DarkMode.ui * Cookie.jar) :
  DarkMode.body_dark (fst (DarkMode.clicks B (S n) s)) =
    Cookie.truthy (Cookie.get_cookie (snd (DarkMode.clicks B (S n) s)) (Some "dark_mode")) /\
  DarkMode.button (fst (DarkMode.clicks B (S n) s)) =
    DarkMode.label
      (if DarkMode.body_dark (fst (DarkMode.clicks B (S n) s))
       then "Undark Mode" else "Dark Mode")
      (DarkMode.button (fst s)) /\
  Cookie.truthy (Cookie.get_cookie (snd (DarkMode.clicks B (S n) s)) (Some "dark_mode")) =
    xorb (Nat.even n)
         (Cookie.truthy (Cookie.get_cookie (snd s) (Some "dark_mode"))) /\
  fst (DarkMode.toggle_dark_mode B (DarkMode.clicks B n s)) = Cookie.Ok tt.
Proof.
  induction n as [|n IH].
  - cbn [DarkMode.clicks Nat.even].
    destruct (toggle_once s) as (H1 & H2 & H3 & H4). fold (dark (snd s)) in *.
    unfold dark in *. rewrite H2, H3, H4.
    repeat split; try exact H1;
      destruct (Cookie.truthy (Cookie.get_cookie (snd s) (Some "dark_mode")));
      reflexivity.
  - destruct IH as (I1 & I2 & I3 & _).
    change (DarkMode.clicks B (S (S n)) s)
      with (snd (DarkMode.toggle_dark_mode B (DarkMode.clicks B (S n) s))).
    destruct (toggle_once (DarkMode.clicks B (S n) s)) as (H1 & H2 & H3 & H4).
    unfold dark in *. rewrite H2, H3, H4, I2, I3, label_label.
    rewrite Nat.even_succ, <- Nat.negb_even.
    repeat split; try exact H1;
      destruct (Nat.even n),
        (Cookie.truthy (Cookie.get_cookie (snd s) (Some "dark_mode")));
      reflexivity.
Qed.

End DarkModeFacts.

(* ================================================================== *)
(** ** Extensions run in the order they were added *)

Section ExtensionFacts.

Variable A : Type.
Variable S : Type.

Let pushed (key : string) (r : Extensions.registry A S) : list (Extensions.extension A S) :=
  match Extensions.own A S key r with
  | Some l => l
  | None => []
  end.

Lemma push_same (key : string) (fn : Extensions.extension A S)
  (r : Extensions.registry A S) :
  Extensions.own A S key (Extensions.push A S key fn r) = Some (pushed key r ++ [fn]).
Proof.
  unfold pushed. induction r as [|[k l] r IH]; simpl.
  - now rewrite String.eqb_refl.
  - destruct (String.eqb key k) eqn:E; simpl; now rewrite E.
Qed.

Lemma push_other (key other : string) (fn : Extensions.extension A S)
  (r : Extensions.registry A S) :
  other <> key ->
  Extensions.own A S other (Extensions.push A S key fn r) = Extensions.own A S other r.
Proof.
  intros Hk. induction r as [|[k l] r IH]; simpl.
  - apply String.eqb_neq in Hk. now rewrite Hk.
  - destruct (String.eqb key k) eqn:E; simpl.
    + apply String.eqb_eq in E. subst k.
      apply String.eqb_neq in Hk. now rewrite Hk.
    + now rewrite IH.
Qed.

Lemma extend_fn_ok (key : string) (fn : Extensions.extension A S)
  (r : Extensions.registry A S) :
  Cookie.inherited key = false ->
  Extensions.extend_fn A S key fn r = Normal (Extensions.push A S key fn r).
Proof.
  intros Hk. unfold Extensions.extend_fn. rewrite Hk.
  now destruct (Extensions.own A S key r).
Qed.

Lemma extend_all_pushed (pairs : list (string * Extensions.extension A S)) :
  Forall (fun kf => Cookie.inherited (fst kf) = false) pairs ->
  forall r, exists r',
    Extensions.extend_all A S pairs r = Normal r' /\
    forall key,
      pushed key r' =
      pushed key r ++ map snd (filter (fun kf => String.eqb key (fst kf)) pairs).
Proof.
  induction pairs as [|[k fn] pairs IH]; intros Hf r.
  - exists r. split; [reflexivity|]. intros key. now rewrite app_nil_r.
  - inversion Hf as [|? ? Hk Hrest]; subst. cbn [fst] in Hk.
    cbn [Extensions.extend_all]. rewrite (extend_fn_ok k fn r Hk).
    destruct (IH Hrest (Extensions.push A S k fn r)) as (r' & Hr & Hp).
    exists r'. split; [exact Hr|]. intros key. rewrite Hp.
    cbn [filter fst]. destruct (String.eqb key k) eqn:E.
    + apply String.eqb_eq in E. subst k. unfold pushed at 1.
      rewrite push_same. cbn [map snd]. now rewrite <- app_assoc.
    + apply String.eqb_neq in E. unfold pushed at 1.
      now rewrite (push_other k key fn r E).
Qed.

(** After [extend_fn] has been called for a series of keys and
    functions, none of the keys a name that every object inherits,
    [run_extensions] of a key calls the functions that were added
    under that key, each once, in the order they were added, up to the
    first that throws, and none that was added under another key. *)
Theorem extensions_run_in_order (pairs : list (string * Extensions.extension A S))
  (key : string) (args : A) (s : S) :
  Forall (fun kf => Cookie.inherited (fst kf) = false) pairs ->
  Cookie.inherited key = false ->
  exists r,
    Extensions.extend_all A S pairs [] = Normal r /\
    Extensions.run_extensions A S key args r s =
    Extensions.run_all A S
      (map snd (filter (fun kf => String.eqb key (fst kf)) pairs)) args s.
Proof.
  intros Hf Hk. destruct (extend_all_pushed pairs Hf []) as (r & Hr & Hp).
  exists r. split; [exact Hr|]. specialize (Hp key). unfold pushed in Hp.
  cbn [Extensions.own app] in Hp. unfold Extensions.run_extensions.
  destruct (Extensions.own A S key r) as [l|].
  - now rewrite Hp.
  - rewrite Hk, <- Hp. reflexivity.
Qed.

End ExtensionFacts.

Lemma extensions_run_in_order_witness :
  Forall (fun kf => Cookie.inherited (fst kf) = false)
    [("map", logs "first"); ("text", logs "other"); ("map", logs "second")] /\
  Cookie.inherited "map" = false /\
  Extensions.run_all string (list string) [logs "first"; logs "second"] "x" [] =
    (Normal tt, ["second(x)"; "first(x)"]) /\
  exists r,
    Extensions.extend_all string (list string)
      [("map", logs "first"); ("text", logs "other"); ("map", logs "second")] []
    = Normal r /\
    Extensions.run_extensions string (list string) "map" "x" r [] =
    Extensions.run_all string (list string)
      (map snd
         (filter (fun kf => String.eqb "map" (fst kf))
            [("map", logs "first"); ("text", logs "other"); ("map", logs "second")]))
      "x" [].
Proof.
  assert (H : Forall (fun kf => Cookie.inherited (fst kf) = false)
                [("map", logs "first"); ("text", logs "other"); ("map", logs "second")])
    by (repeat constructor).
  split; [exact H|]. split; [reflexivity|]. split; [reflexivity|].
  exact (extensions_run_in_order string (list string) _ "map" "x" [] H eq_refl).
Defined.
